(** * Sex ratio of the children of Lok Sabha members

    A shallow embedding of the analysis notebook
    [scripts/03_ls_daughters.ipynb]: the member table read from the
    biodata JSON files, the pandas operations the cells apply to it
    (boolean masks, [drop_duplicates], column sums and means, [groupby],
    [sample]) and the SciPy contingency test of the last cells.

    Numbers.  The JSON files hold whole-number counts or [null]; pandas
    keeps a count column with a number in it as a numeric column, where
    [null] is NaN, and a column that is [null] throughout as an [object]
    column of [None].  The first part of the file is the numeric case;
    the section "Column types" adds the object case, where sums and
    quotients are Python's and may raise.  A [float64] is modelled by its
    value: a rational, one of the two infinities, or NaN.  Sums of whole
    numbers are exact in binary64 only while they stay within 2^53
    ([exact_sums]); the statements about sums carry that bound.  A
    quotient, a mean or a standard deviation is kept as the exact value
    that the binary64 computation approximates, in lowest terms, and there
    is no negative zero: results that depend on the rounding of sums of
    fractions, such as the last digits of a mean, are not modelled. *)

From Stdlib Require Import List ZArith QArith Qreduction Qcanon.
From Stdlib Require Import String Ascii Bool Lia Permutation Sorted.
From Stdlib Require Import DecimalString DecimalNat.
Import ListNotations.

Local Open Scope Z_scope.

(** ** Values *)

Inductive float64 : Type :=
| Fin (q : Q)
| PInf
| NInf
| NaN.

(** A finite value in lowest terms, so that equal values are equal terms. *)
Definition fin (q : Q) : float64 := Fin (Qred q).

Definition of_Z (z : Z) : float64 := Fin (inject_Z z).

(** A JSON cell as pandas stores it: [null] becomes NaN. *)
Definition of_cell (c : option Z) : float64 :=
  match c with
  | Some z => of_Z z
  | None => NaN
  end.

Definition isna (x : float64) : bool :=
  match x with
  | NaN => true
  | _ => false
  end.

Definition notna (x : float64) : bool := negb (isna x).

(** IEEE addition on values, without the rounding: exact on whole numbers
    within 2^53, an approximation of binary64 addition elsewhere. *)
Definition fadd (a b : float64) : float64 :=
  match a, b with
  | NaN, _ | _, NaN => NaN
  | PInf, NInf | NInf, PInf => NaN
  | PInf, _ | _, PInf => PInf
  | NInf, _ | _, NInf => NInf
  | Fin x, Fin y => fin (x + y)
  end.

Definition Qsign_pos (x : Q) : bool := (0 <? Qnum x).
Definition Qsign_neg (x : Q) : bool := (Qnum x <? 0).
Definition Qis_zero (x : Q) : bool := (Qnum x =? 0).

(** IEEE division on values, as NumPy's [/] on [float64] scalars and
    arrays performs it: a zero divisor gives an infinity or NaN (with a
    RuntimeWarning), never an exception. *)
Definition fdiv (a b : float64) : float64 :=
  match a, b with
  | NaN, _ | _, NaN => NaN
  | Fin x, Fin y =>
      if Qis_zero y then
        if Qsign_pos x then PInf else if Qsign_neg x then NInf else NaN
      else fin (x / y)
  | Fin _, (PInf | NInf) => Fin 0
  | PInf, Fin y => if Qsign_neg y then NInf else PInf
  | NInf, Fin y => if Qsign_neg y then PInf else NInf
  | (PInf | NInf), (PInf | NInf) => NaN
  end.

(** [x > 0] on a float: false on NaN. *)
Definition fgt0 (x : float64) : bool :=
  match x with
  | Fin q => Qsign_pos q
  | PInf => true
  | NInf | NaN => false
  end.

(** ** Exceptions *)

Inductive exn : Type :=
| ZeroDivisionError
| ValueError
| IndexError
| TypeError.

Inductive outcome (A : Type) : Type :=
| Ret (a : A)
| Raise (e : exn).

Arguments Ret {A} a.
Arguments Raise {A} e.

(** Python's [/] on two Python floats (or ints): a zero divisor raises,
    whatever the dividend is, NaN included. *)
Definition py_div (a b : float64) : outcome float64 :=
  match b with
  | Fin y => if Qis_zero y then Raise ZeroDivisionError else Ret (fdiv a b)
  | _ => Ret (fdiv a b)
  end.

(** ** The member table *)

(** One entry of [membersDtoList], with the columns the notebook reads,
    and the [ls] column the loading cell adds from the file name. *)
Record member : Type := mkMember {
  mpsno : Z;
  partySname : string;
  ls : string;
  numberOfSons : option Z;
  numberOfDaughters : option Z
}.

Definition frame : Type := list member.

(** A numeric column of the frame, as a [float64] Series: [null] is NaN.
    (An object column holds [None] there; see "Column types".) *)
Definition column (f : member -> option Z) (df : frame) : list float64 :=
  map (fun r => of_cell (f r)) df.

(** ** Sums *)

Definition Zsum (l : list Z) : Z := fold_right Z.add 0 l.

(** Python's builtin [sum] over a Series: a left fold of [+] from 0 over
    every element, NaN included. *)
Definition py_sum (s : list float64) : float64 :=
  fold_left fadd s (of_Z 0).

(** [np.sum] of a Series dispatches to [Series.sum], which skips NaN
    ([skipna=True]); an empty or all-NaN Series sums to 0.0. *)
Definition np_sum (s : list float64) : float64 :=
  fold_left fadd (filter notna s) (of_Z 0).

(** ** Missing data and the aggregate sex ratio *)

(** [df.loc[~ (df['numberOfSons'].isna() & df['numberOfDaughters'].isna())]] *)
Definition both_missing (r : member) : bool :=
  isna (of_cell (numberOfSons r)) && isna (of_cell (numberOfDaughters r)).

Definition df_small (df : frame) : frame :=
  filter (fun r => negb (both_missing r)) df.

(** [df['numberOfSons'].isna().sum()] *)
Definition missing_count (f : member -> option Z) (df : frame) : nat :=
  List.length (filter isna (column f df)).

(** [sum(d['numberOfSons'])/sum(d['numberOfDaughters'])], the cell under
    "Agg. Sex Ratio", on numeric columns: builtin [sum], Python float
    division.  [agg_sex_ratio_at] below has the object columns, where the
    sum raises [TypeError] on [None]. *)
Definition agg_sex_ratio (d : frame) : outcome float64 :=
  py_div (py_sum (column numberOfSons d)) (py_sum (column numberOfDaughters d)).

(** [calculate_ratio(data)] on numeric columns with exact sums: NumPy
    division, which raises nothing.  [calculate_ratio_at] below has the
    object columns, where the division is Python's. *)
Definition calculate_ratio (data : frame) : float64 :=
  let numerator := np_sum (column numberOfSons data) in
  let denominator := np_sum (column numberOfDaughters data) in
  fdiv numerator denominator.

(** ** Unique members *)

(** [Series.duplicated(keep='last')]: a row is marked when a later row
    has the same key. *)
Fixpoint duplicated_last (keys : list Z) : list bool :=
  match keys with
  | [] => []
  | k :: rest => existsb (Z.eqb k) rest :: duplicated_last rest
  end.

(** Boolean indexing [df[mask]]. *)
Fixpoint select {A : Type} (mask : list bool) (rows : list A) : list A :=
  match mask, rows with
  | b :: mask', r :: rows' =>
      if b then r :: select mask' rows' else select mask' rows'
  | _, _ => []
  end.

(** [d.drop_duplicates(subset='mpsno', keep='last')] *)
Definition drop_duplicates (d : frame) : frame :=
  select (map negb (duplicated_last (map mpsno d))) d.

Definition unique_df (df : frame) : frame := drop_duplicates (df_small df).

(** ** Proportion of daughters *)

(** [unique_df['numberOfDaughters'] + unique_df['numberOfSons']] *)
Definition total_kids (r : member) : float64 :=
  fadd (of_cell (numberOfDaughters r)) (of_cell (numberOfSons r)).

(** [unique_df[unique_df['total_kids'] > 0]] *)
Definition df_kids (u : frame) : frame :=
  filter (fun r => fgt0 (total_kids r)) u.

(** [df_kids['numberOfDaughters']/df_kids['total_kids']] *)
Definition prop_daughter (r : member) : float64 :=
  fdiv (of_cell (numberOfDaughters r)) (total_kids r).

(** [Series.mean()]: NaN is skipped, and the mean of nothing is NaN. *)
Definition series_mean (s : list float64) : float64 :=
  let values := filter notna s in
  match values with
  | [] => NaN
  | _ => fdiv (fold_left fadd values (of_Z 0))
              (of_Z (Z.of_nat (List.length values)))
  end.

(** [df_kids['prop_daughter'].mean()] for [df_kids] made from [u]. *)
Definition prop_daughter_mean (u : frame) : float64 :=
  series_mean (map prop_daughter (df_kids u)).

(** [unique_df['total_kids'].mean()] *)
Definition total_kids_mean (u : frame) : float64 :=
  series_mean (map total_kids u).

(** ** Group-by tables *)

(** The rows of one group. *)
Definition group_rows (key : member -> string) (k : string) (d : frame)
  : frame :=
  filter (fun r => String.eqb (key r) k) d.

(** Insertion into a sorted list without repeats. *)
Fixpoint insert_uniq {A : Type} (cmp : A -> A -> comparison) (a : A)
  (l : list A) : list A :=
  match l with
  | [] => [a]
  | x :: rest =>
      match cmp a x with
      | Lt => a :: l
      | Eq => l
      | Gt => x :: insert_uniq cmp a rest
      end
  end.

(** The group keys: [groupby] sorts them, each once. *)
Definition sorted_keys (keys : list string) : list string :=
  fold_right (insert_uniq String.compare) [] keys.

Record ratio_row : Type := mkRow {
  label : string;
  sons : float64;
  daughters : float64;
  sex_ratio : float64
}.

(** The sums of one group and their quotient, a row of [adf]. *)
Definition group_ratio (key : member -> string) (d : frame) (k : string)
  : ratio_row :=
  let g := group_rows key k d in
  let s := np_sum (column numberOfSons g) in
  let dd := np_sum (column numberOfDaughters g) in
  mkRow k s dd (fdiv s dd).

(** [adf = d.groupby(key)[['numberOfSons', 'numberOfDaughters']].sum().reset_index()]
    followed by [adf['sex_ratio'] = adf['numberOfSons']/adf['numberOfDaughters']]. *)
Definition sex_ratio_table (key : member -> string) (d : frame)
  : list ratio_row :=
  map (group_ratio key d) (sorted_keys (map key d)).

(** [d.groupby(key)[col].mean()] for a derived column [col]. *)
Definition mean_table (key : member -> string) (col : member -> float64)
  (d : frame) : list (string * float64) :=
  map (fun k => (k, series_mean (map col (group_rows key k d))))
      (sorted_keys (map key d)).

(** [df_kids.groupby('ls')['prop_daughter'].mean()] *)
Definition prop_daughter_by_ls (u : frame) : list (string * float64) :=
  mean_table ls prop_daughter (df_kids u).

(** [unique_df.groupby('ls')['total_kids'].mean()] *)
Definition total_kids_by_ls (u : frame) : list (string * float64) :=
  mean_table ls total_kids u.

(** ** The party table *)

(** [x > c] on a float: false on NaN. *)
Definition fgt (x : float64) (c : Z) : bool :=
  match x with
  | Fin q => negb (Qle_bool q (inject_Z c))
  | PInf => true
  | NInf | NaN => false
  end.

(** [(adf['numberOfDaughters'] + adf['numberOfSons']) > 100] *)
Definition enough_data (row : ratio_row) : bool :=
  fgt (fadd (daughters row) (sons row)) 100.

(** [x] is placed no later than [y] in a descending sort: NaN goes last. *)
Definition before_desc (x y : float64) : bool :=
  match x, y with
  | NaN, NaN => true
  | NaN, _ => false
  | _, NaN => true
  | PInf, _ => true
  | _, PInf => false
  | _, NInf => true
  | NInf, _ => false
  | Fin a, Fin b => Qle_bool b a
  end.

Fixpoint insert_desc (r : ratio_row) (l : list ratio_row) : list ratio_row :=
  match l with
  | [] => [r]
  | x :: rest =>
      if before_desc (sex_ratio r) (sex_ratio x) then r :: l
      else x :: insert_desc r rest
  end.

(** [sort_values('sex_ratio', ascending = False)].  Rows of equal ratio
    are kept here in table order; NumPy leaves their order to its sort. *)
Definition sort_values_desc (t : list ratio_row) : list ratio_row :=
  fold_right insert_desc [] t.

(** [pdf = adf[... > 100].sort_values('sex_ratio', ascending = False)[0:10]] *)
Definition party_pdf (u : frame) : list ratio_row :=
  firstn 10 (sort_values_desc (filter enough_data (sex_ratio_table partySname u))).

(** ** The chi-square cell *)

(** The order of float labels; NaN labels are dropped before it is used. *)
Definition fcompare (x y : float64) : comparison :=
  match x, y with
  | Fin a, Fin b => Qcompare a b
  | NaN, NaN | PInf, PInf | NInf, NInf => Eq
  | NaN, _ => Gt
  | _, NaN => Lt
  | NInf, _ => Lt
  | _, NInf => Gt
  | _, PInf => Lt
  | PInf, _ => Gt
  end.

Definition feqb (x y : float64) : bool :=
  match fcompare x y with
  | Eq => true
  | _ => false
  end.

(** A list of length one given where a column is expected is repeated to
    the length of the index. *)
Definition broadcast {A : Type} (l : list A) (n : nat) : list A :=
  match l with
  | [x] => repeat x n
  | _ => l
  end.

Definition table : Type := list (list Z).

(** [pd.crosstab(index, columns)] with one row factor and one column
    factor: the number of positions for each pair of a row label and a
    column label, labels sorted, positions with a NaN label dropped, and 0
    where a pair does not occur. *)
Definition crosstab (index : list float64) (columns : list string)
  : outcome table :=
  let columns := broadcast columns (List.length index) in
  if negb (List.length columns =? List.length index)%nat then Raise ValueError
  else
    let rows := filter (fun p => notna (fst p)) (combine index columns) in
    let row_labels := fold_right (insert_uniq fcompare) [] (map fst rows) in
    let col_labels := sorted_keys (map snd rows) in
    Ret (map (fun i =>
           map (fun j =>
             Z.of_nat (List.length
               (filter (fun p => feqb (fst p) i && String.eqb (snd p) j) rows)))
             col_labels)
           row_labels).

Definition ncols (t : table) : nat :=
  match t with
  | [] => 0
  | row :: _ => List.length row
  end.

Definition row_sums (t : table) : list Z := map Zsum t.

Definition col_sums (t : table) : list Z :=
  map (fun j => Zsum (map (fun row => nth j row 0) t)) (seq 0 (ncols t)).

Definition grand_total (t : table) : Z := Zsum (row_sums t).

(** [scipy.stats.contingency.expected_freq] for a two-way table: the
    product of the two marginal sums over the grand total, in floats. *)
Definition expected_freq (t : table) : list (list float64) :=
  map (fun ri =>
         map (fun cj => fdiv (of_Z (ri * cj)) (of_Z (grand_total t)))
             (col_sums t))
      (row_sums t).

Definition fis_zero (x : float64) : bool :=
  match x with
  | Fin q => Qis_zero q
  | _ => false
  end.

(** The statistic and the p-value of the test.  Where SciPy computes them
    ([power_divergence] on the observed and expected tables, after Yates'
    correction when there is one degree of freedom, and the survival
    function of the chi-square distribution) they are kept as terms. *)
Inductive statistic : Type :=
| StatConst (x : float64)
| PowerDivergence (yates : bool) (observed : table)
    (expected : list (list float64)).

Inductive p_value : Type :=
| PConst (x : float64)
| Chi2Sf (stat : statistic) (dof : Z).

Record chi2_result : Type := mkChi2 {
  chi2 : statistic;
  p : p_value;
  dof : Z;
  expected : list (list float64)
}.

(** [scipy.stats.chi2_contingency(observed)] on a two-way table. *)
Definition chi2_contingency (observed : table) : outcome chi2_result :=
  if existsb (existsb (fun x => x <? 0)) observed then Raise ValueError
  else if (List.length observed * ncols observed =? 0)%nat then Raise ValueError
  else
    let e := expected_freq observed in
    if existsb (existsb fis_zero) e then Raise ValueError
    else
      let size := Z.of_nat (List.length observed * ncols observed) in
      let shape := Z.of_nat (List.length observed + ncols observed) in
      let dof := size - shape + 2 - 1 in
      if dof =? 0 then Ret (mkChi2 (StatConst (of_Z 0)) (PConst (of_Z 1)) dof e)
      else
        let stat := PowerDivergence (dof =? 1) observed e in
        Ret (mkChi2 stat (Chi2Sf stat dof) dof e).

(** [stats.chi2_contingency(pd.crosstab(pdf['numberOfSons'], ['numberOfDaughters']))] *)
Definition chi_square_cell (pdf : list ratio_row) : outcome chi2_result :=
  match crosstab (map sons pdf) ["numberOfDaughters"%string] with
  | Ret t => chi2_contingency t
  | Raise e => Raise e
  end.

(** ** Text counts *)

Module FieldNormalizer.

Inductive raw_value : Type :=
| Absent
| RawInt (z : Z)
| RawFloat (q : Q)
| RawStr (s : string).

Inductive normalized : Type :=
| Count (c : option Z)
| InvalidCount.

Definition is_space (c : ascii) : bool :=
  match c with
  | " "%char | "009"%char | "010"%char | "013"%char => true
  | _ => false
  end.

Fixpoint lstrip (s : string) : string :=
  match s with
  | String c rest => if is_space c then lstrip rest else s
  | EmptyString => EmptyString
  end.

Fixpoint rstrip (s : string) : string :=
  match s with
  | String c rest =>
      match rstrip rest with
      | EmptyString => if is_space c then EmptyString else String c EmptyString
      | rest' => String c rest'
      end
  | EmptyString => EmptyString
  end.

Definition trim (s : string) : string := rstrip (lstrip s).

Definition lower_char (c : ascii) : ascii :=
  let n := nat_of_ascii c in
  if ((65 <=? n) && (n <=? 90))%nat then ascii_of_nat (n + 32) else c.

Fixpoint lower (s : string) : string :=
  match s with
  | String c rest => String (lower_char c) (lower rest)
  | EmptyString => EmptyString
  end.

(** The closed vocabulary, each word at the position of its value. *)
Definition number_words : list string :=
  ["zero"; "one"; "two"; "three"; "four"; "five"; "six"; "seven"; "eight";
   "nine"; "ten"; "eleven"; "twelve"; "thirteen"; "fourteen"; "fifteen";
   "sixteen"; "seventeen"; "eighteen"; "nineteen"; "twenty"]%string.

Fixpoint word_value (w : string) (words : list string) (v : Z) : option Z :=
  match words with
  | [] => None
  | x :: rest => if String.eqb w x then Some v else word_value w rest (v + 1)
  end.

Definition digit_value (c : ascii) : option Z :=
  let n := nat_of_ascii c in
  if ((48 <=? n) && (n <=? 57))%nat then Some (Z.of_nat (n - 48)) else None.

Fixpoint digits_value (s : string) (acc : Z) : option Z :=
  match s with
  | EmptyString => Some acc
  | String c rest =>
      match digit_value c with
      | Some d => digits_value rest (10 * acc + d)
      | None => None
      end
  end.

(** A plain digit string: at least one character, digits only. *)
Definition plain_digits (s : string) : option Z :=
  match s with
  | EmptyString => None
  | _ => digits_value s 0
  end.

(** Modelled from the spec: [FieldNormalizer.normalize] is not among the
    sources, which only document the text conversion of the Rajya Sabha
    extraction ("One" / "one" gives 1, "Two" / "two" gives 2, and so on).
    An absent value is [None]; a whole number that is not negative is
    itself, a negative or fractional one is [InvalidCount]; a string is
    trimmed and matched without regard to case against the number words
    zero to twenty and against plain digit strings, anything else being
    [InvalidCount]. *)
Definition normalize (raw : raw_value) : normalized :=
  match raw with
  | Absent => Count None
  | RawInt z => if z <? 0 then InvalidCount else Count (Some z)
  | RawFloat q =>
      let r := Qred q in
      if (Qnum r <? 0) || negb (Pos.eqb (Qden r) 1) then InvalidCount
      else Count (Some (Qnum r))
  | RawStr s =>
      let t := lower (trim s) in
      match word_value t number_words 0 with
      | Some v => Count (Some v)
      | None =>
          match plain_digits t with
          | Some v => Count (Some v)
          | None => InvalidCount
          end
      end
  end.

(** The digit strings of zero to ten. *)
Definition digit_strings : list string :=
  ["0"; "1"; "2"; "3"; "4"; "5"; "6"; "7"; "8"; "9"; "10"]%string.

End FieldNormalizer.

(** ** Fetching the Rajya Sabha biodata *)

(** The cell of [scripts/01_get_rs_data.ipynb]: one request for each
    member code, the body of a successful one saved as a file. *)
Module GetRsData.

Record response : Type := mkResponse {
  status_code : Z;
  text : string
}.

(** What stops the loop: an exception out of [requests.get] or out of
    [json.loads]; the cell catches neither. *)
Inductive interrupt : Type :=
| RequestException
| JSONDecodeError.

(** The outside of the cell: the server, and the [json] module. *)
Record world : Type := mkWorld {
  json : Type;
  requests_get : string -> option response;
  json_loads : string -> option json;
  json_dumps : json -> string
}.

(** The files by path, and the lines printed. *)
Record disk : Type := mkDisk {
  files : list (string * string);
  printed : list string
}.

(** [f'{mpcode}'] *)
Definition str (mpcode : nat) : string :=
  NilEmpty.string_of_uint (Nat.to_uint mpcode).

Definition url (mpcode : nat) : string :=
  ("https://rsdoc.nic.in/Memberweb/GetCurrentMember_Biodata?mpcode="
   ++ str mpcode)%string.

(** [os.path.join(folder_path, f'{mpcode}.json')] *)
Definition file_path (mpcode : nat) : string :=
  ("mp_data/" ++ str mpcode ++ ".json")%string.

(** [open(path, 'w')] and the write: the file is replaced. *)
Definition write (path content : string) (fs : list (string * string))
  : list (string * string) :=
  (path, content)
  :: filter (fun f => negb (String.eqb (fst f) path)) fs.

Definition read (path : string) (fs : list (string * string))
  : option string :=
  option_map snd (find (fun f => String.eqb (fst f) path) fs).

(** The body of the loop for one code. *)
Definition body (w : world) (mpcode : nat) (d : disk)
  : disk * option interrupt :=
  match requests_get w (url mpcode) with
  | None => (d, Some RequestException)
  | Some r =>
      if status_code r =? 200 then
        match json_loads w (text r) with
        | None => (d, Some JSONDecodeError)
        | Some data =>
            (mkDisk (write (file_path mpcode) (json_dumps w data) (files d))
                    (printed d),
             None)
        end
      else
        (mkDisk (files d)
                (printed d
                 ++ [("Request failed for MP Code: " ++ str mpcode)%string]),
         None)
  end.

Fixpoint for_each (w : world) (codes : list nat) (d : disk)
  : disk * option interrupt :=
  match codes with
  | [] => (d, None)
  | mpcode :: rest =>
      match body w mpcode d with
      | (d', None) => for_each w rest d'
      | (d', Some e) => (d', Some e)
      end
  end.

(** [for mpcode in range(1, 2574): ...] *)
Definition get_rs_data (w : world) (d : disk) : disk * option interrupt :=
  for_each w (seq 1 2573) d.

(** What the server and the parser make of one code. *)
Definition interrupts (w : world) (mpcode : nat) : option interrupt :=
  match requests_get w (url mpcode) with
  | None => Some RequestException
  | Some r =>
      if status_code r =? 200 then
        match json_loads w (text r) with
        | None => Some JSONDecodeError
        | Some _ => None
        end
      else None
  end.

Definition saved (w : world) (mpcode : nat) : option string :=
  match requests_get w (url mpcode) with
  | None => None
  | Some r =>
      if status_code r =? 200 then
        option_map (json_dumps w) (json_loads w (text r))
      else None
  end.

Definition refused (w : world) (mpcode : nat) : bool :=
  match requests_get w (url mpcode) with
  | None => false
  | Some r => negb (status_code r =? 200)
  end.

(** The codes handled before the first interrupt. *)
Fixpoint handled (w : world) (codes : list nat) : list nat :=
  match codes with
  | [] => []
  | c :: rest =>
      match interrupts w c with
      | None => c :: handled w rest
      | Some _ => []
      end
  end.

(** The interrupt that stops the loop, if any. *)
Fixpoint first_interrupt (w : world) (codes : list nat) : option interrupt :=
  match codes with
  | [] => None
  | c :: rest =>
      match interrupts w c with
      | None => first_interrupt w rest
      | Some e => Some e
      end
  end.

End GetRsData.

(** ** Proportion of daughters by number of children *)

Record kids_row : Type := mkKidsRow {
  kids : float64;
  mean_prop : float64;
  count : nat
}.

(** The rows of [df_kids] with a given number of children. *)
Definition kids_group (u : frame) (k : float64) : frame :=
  filter (fun r => feqb (total_kids r) k) (df_kids u).

(** [df_kids[['total_kids', 'prop_daughter']].groupby(['total_kids'])
    .agg({'prop_daughter': ['mean', 'count']}).reset_index()]: the groups
    in increasing order of the key, rows with a NaN key dropped, and for
    each the mean and the number of the values that are not NaN. *)
Definition kids_table (u : frame) : list kids_row :=
  map (fun k =>
         let g := map prop_daughter (kids_group u k) in
         mkKidsRow k (series_mean g) (List.length (filter notna g)))
      (fold_right (insert_uniq fcompare) []
                  (filter notna (map total_kids (df_kids u)))).

(** ** The statements of the specification, in its own words *)

Module Spec.

(** The result of [sex_ratio]: a ratio, or the explicit "undefined"
    sentinel of the [DivisionByZero] signal. *)
Inductive ratio_result : Type :=
| Ratio (q : Q)
| DivisionByZero.

Definition both_present (r : member) : bool :=
  match numberOfSons r, numberOfDaughters r with
  | Some _, Some _ => true
  | _, _ => false
  end.

Definition count_of (c : option Z) : Z :=
  match c with
  | Some z => z
  | None => 0
  end.

(** sum(sons) / sum(daughters) over records where both fields are
    present; the sentinel when sum(daughters) = 0. *)
Definition sex_ratio (records : list member) : ratio_result :=
  let view := filter both_present records in
  let s := Zsum (map (fun r => count_of (numberOfSons r)) view) in
  let d := Zsum (map (fun r => count_of (numberOfDaughters r)) view) in
  if d =? 0 then DivisionByZero
  else Ratio (Qred (inject_Z s / inject_Z d)).

(** What a returned float is, read as a [ratio_result]: a finite float
    is a ratio; an infinity or NaN is an untagged float, neither a ratio
    nor the sentinel. *)
Definition returned (x : float64) : option ratio_result :=
  match x with
  | Fin q => Some (Ratio q)
  | _ => None
  end.

(** sons + daughters when both are present, otherwise absent. *)
Definition total_children (r : member) : option Z :=
  match numberOfSons r, numberOfDaughters r with
  | Some s, Some d => Some (s + d)
  | _, _ => None
  end.

Definition has_children (r : member) : bool :=
  match total_children r with
  | Some t => 0 <? t
  | None => false
  end.

Definition share (r : member) : Q :=
  inject_Z (count_of (numberOfDaughters r))
  / inject_Z (count_of (total_children r)).

Definition Qsum (l : list Q) : Q := fold_right Qplus 0%Q l.

(** The mean of a list of rationals; [None] when there is none. *)
Definition mean (l : list Q) : option Q :=
  match l with
  | [] => None
  | _ => Some (Qred (Qsum l / inject_Z (Z.of_nat (List.length l))))
  end.


(** The identity keys of a sequence in order of first appearance. *)
Fixpoint first_appearance (keys : list Z) : list Z :=
  match keys with
  | [] => []
  | k :: rest => k :: filter (fun k' => negb (k' =? k)) (first_appearance rest)
  end.

(** The last record of a sequence carrying a given key. *)
Fixpoint last_with (k : Z) (records : list member) : option member :=
  match records with
  | [] => None
  | r :: rest =>
      match last_with k rest with
      | Some r' => Some r'
      | None => if mpsno r =? k then Some r else None
      end
  end.

End Spec.

(** The sum of a column over the rows where it is present. *)
Definition present_sum (f : member -> option Z) (d : frame) : Z :=
  Zsum (map (fun r => Spec.count_of (f r)) d).

Definition all_present (f : member -> option Z) (d : frame) : bool :=
  forallb (fun r => notna (of_cell (f r))) d.

(** The float quotient of two whole numbers. *)
Definition ieee_quotient (s d : Z) : float64 :=
  if d =? 0 then
    if 0 <? s then PInf else if s <? 0 then NInf else NaN
  else Fin (Qred (inject_Z s / inject_Z d)).

(** The sex-ratio sentence of the specification, read on the code. *)
Definition sex_ratio_as_specified (records : frame) : Prop :=
  Spec.returned (calculate_ratio records) = Some (Spec.sex_ratio records).

Definition zero_daughters : frame :=
  [mkMember 1 "BJP" "17" (Some 1) (Some 0)].

Definition daughters_unknown : frame :=
  [mkMember 1 "BJP" "17" (Some 2) None;
   mkMember 2 "INC" "17" (Some 1) (Some 1)].

(** Three rows, the first and the last for the same member. *)
Definition seen_twice : frame :=
  [mkMember 7 "BJP" "16" (Some 1) (Some 1);
   mkMember 9 "INC" "16" (Some 0) (Some 2);
   mkMember 7 "BJP" "17" (Some 2) (Some 1)].

(** A row whose two counts are both missing. *)
Definition no_counts (k : Z) (party session : string) : member :=
  mkMember k party session None None.

(** Every group of the party table is in the reported table. *)
Definition every_group_reported (u : frame) : Prop :=
  forall row : ratio_row,
    In row (sex_ratio_table partySname u) -> In row (party_pdf u).

Definition small_party : frame :=
  [mkMember 1 "BJP" "17" (Some 60) (Some 50);
   mkMember 2 "CPI" "17" (Some 1) (Some 1)].

Definition returns_without_raising {A : Type} (o : outcome A) : Prop :=
  exists a : A, o = Ret a.

(** The result of the degenerate branch of the test. *)
Definition degenerate_result (e : list (list float64)) : chi2_result :=
  mkChi2 (StatConst (of_Z 0)) (PConst (of_Z 1)) 0 e.

Definition one_column (counts : list Z) : table := map (fun c => [c]) counts.

(** The chi-square sentence of the specification, read on the code: a
    table with a structural zero gives a returned result, with chi2 = 0
    and p = 1. *)
Definition degenerate_signalled (t : table) : Prop :=
  exists r : chi2_result,
    chi2_contingency t = Ret r
    /\ chi2 r = StatConst (of_Z 0) /\ p r = PConst (of_Z 1).

Definition one_populated_cell : table := [[5; 0]; [0; 0]].

(** The chi-square result of the notebook does not depend on the data. *)
Definition chi_square_constant (u : frame) : Prop :=
  exists e : list (list float64),
    chi_square_cell (party_pdf u) = Ret (degenerate_result e).

Definition one_family : frame :=
  [mkMember 1 "BJP" "17" (Some 1) (Some 1)].

(** A string with no blank in it. *)
Fixpoint no_space (s : string) : bool :=
  match s with
  | EmptyString => true
  | String c rest => negb (FieldNormalizer.is_space c) && no_space rest
  end.

(** ** Loading the session files *)

(** Python's [s[start:-back]] for a start counted from the left and a
    stop counted from the right: empty when the two cross. *)
Definition py_slice (start back : nat) (s : string) : string :=
  substring start (String.length s - back - start) s.

(** One entry of [membersDtoList] as the JSON file has it. *)
Record entry : Type := mkEntry {
  e_mpsno : Z;
  e_partySname : string;
  e_numberOfSons : option Z;
  e_numberOfDaughters : option Z
}.

(** [df = pd.DataFrame(data['membersDtoList'])] then
    [df['ls'] = filename[3:-5]]. *)
Definition load_file (filename : string) (members : list entry) : frame :=
  map (fun e => mkMember (e_mpsno e) (e_partySname e) (py_slice 3 5 filename)
                         (e_numberOfSons e) (e_numberOfDaughters e))
      members.

(** The loop over [os.listdir("data/")] and [pd.concat(df_list)], which
    refuses an empty list. *)
Definition read_data (files : list (string * list entry)) : outcome frame :=
  match files with
  | [] => Raise ValueError
  | _ => Ret (List.concat (map (fun f => load_file (fst f) (snd f)) files))
  end.

(** ** Counting members *)

(** [Series.unique()]: the values in order of appearance, each once. *)
Fixpoint unique_from (seen keys : list Z) : list Z :=
  match keys with
  | [] => []
  | k :: rest =>
      if existsb (Z.eqb k) seen then unique_from seen rest
      else k :: unique_from (k :: seen) rest
  end.

Definition unique (keys : list Z) : list Z := unique_from [] keys.

(** [len(d['mpsno'].unique())] *)
Definition n_unique_mps (d : frame) : nat :=
  List.length (unique (map mpsno d)).

(** [unique_df['total_kids'].sum()] *)
Definition total_kids_sum (u : frame) : float64 :=
  np_sum (map total_kids u).

(** The two counts of a row are missing together or present together. *)
Definition same_rows (r : member) : bool :=
  Bool.eqb (isna (of_cell (numberOfSons r)))
           (isna (of_cell (numberOfDaughters r))).

(** Both counts of the row are present. *)
Definition has_both (r : member) : bool :=
  notna (of_cell (numberOfSons r)) && notna (of_cell (numberOfDaughters r)).

(** No count of the row is negative. *)
Definition counts_nonneg (r : member) : bool :=
  match numberOfSons r, numberOfDaughters r with
  | Some s, Some d => (0 <=? s) && (0 <=? d)
  | Some c, None | None, Some c => 0 <=? c
  | None, None => true
  end.

(** The first row ranks no lower than the second in the party table. *)
Definition ratio_ge (a b : ratio_row) : Prop :=
  before_desc (sex_ratio a) (sex_ratio b) = true.

(** The number of children of a row, 0 when a count is missing. *)
Definition kids_of (r : member) : Z := Spec.count_of (Spec.total_children r).

(** ** Column types *)

(** The type pandas gives a count column.  A column with a number in it
    is [int64], or [float64] when it also has a [null]; the two agree as
    long as the sums are exact, and are one case here.  A column that is
    [null] in every entry of a file is an [object] column holding [None],
    and stays one through [pd.concat] and row filters; its sums and
    quotients are Python's.  The functions above are the numeric case. *)
Inductive dtype : Type :=
| Numeric
| Object.

(** The types of the sons column and of the daughters column. *)
Definition dtypes : Type := (dtype * dtype)%type.

Definition numeric (dt : dtypes) : bool :=
  match dt with
  | (Numeric, Numeric) => true
  | _ => false
  end.

Definition both_object (dt : dtypes) : bool :=
  match dt with
  | (Object, Object) => true
  | _ => false
  end.

Definition is_object (t : dtype) : bool :=
  match t with
  | Object => true
  | Numeric => false
  end.

(** The sum of the absolute values of a column: while it stays within
    2^53 every partial sum, in any order, is exact in [float64] and does
    not wrap in [int64]. *)
Definition abs_sum (f : member -> option Z) (d : frame) : Z :=
  Zsum (map (fun r => Z.abs (Spec.count_of (f r))) d).

Definition exact_sums (d : frame) : bool :=
  (abs_sum numberOfSons d <=? 2 ^ 53)
  && (abs_sum numberOfDaughters d <=? 2 ^ 53).

(** [calculate_ratio(data)] on columns of the given types: with two
    object columns the sums are Python numbers and [/] is Python's, which
    raises on a zero divisor; otherwise a NumPy scalar is involved and the
    division is NumPy's. *)
Definition calculate_ratio_at (dt : dtypes) (data : frame) : outcome float64 :=
  if both_object dt then
    py_div (np_sum (column numberOfSons data))
           (np_sum (column numberOfDaughters data))
  else Ret (calculate_ratio data).

(** The cell under "Agg. Sex Ratio" on columns of the given types: the
    builtin [sum] adds the elements themselves, and adding [None] raises
    [TypeError]. *)
Definition agg_sex_ratio_at (dt : dtypes) (d : frame) : outcome float64 :=
  if (is_object (fst dt) && negb (all_present numberOfSons d))
     || (is_object (snd dt) && negb (all_present numberOfDaughters d))
  then Raise TypeError
  else agg_sex_ratio d.

(** The group table with its [sex_ratio] column on columns of the given
    types: the sums of object columns are object columns of Python
    numbers, divided element by element by Python's [/]. *)
Definition sex_ratio_table_at (dt : dtypes) (key : member -> string)
  (d : frame) : outcome (list ratio_row) :=
  if both_object dt
     && existsb (fun row => fis_zero (daughters row)) (sex_ratio_table key d)
  then Raise ZeroDivisionError
  else Ret (sex_ratio_table key d).

(** The cell of the party table on columns of the given types: [adf] with
    its [sex_ratio] column, then the filter, the sort and the slice. *)
Definition party_pdf_at (dt : dtypes) (u : frame) : outcome (list ratio_row) :=
  match sex_ratio_table_at dt partySname u with
  | Ret adf => Ret (firstn 10 (sort_values_desc (filter enough_data adf)))
  | Raise e => Raise e
  end.

(** The by-session table is the same with and without some rows. *)
Definition by_session_unchanged (dt dt' : dtypes) (d d' : frame) : Prop :=
  sex_ratio_table_at dt ls d = sex_ratio_table_at dt' ls d'.

(** A session whose only row has no counts, beside a session with one. *)
Definition lone_session : frame :=
  [no_counts 3 "SP" "16"; mkMember 1 "BJP" "17" (Some 1) (Some 1)].

(** ** Bootstrap standard error *)

(** What the bootstrap cell takes from NumPy's random module: the state
    of the global generator, the state [np.random.seed] sets, and the
    draw [RandomState.choice(a, size, replace=True)] of [size] positions
    below [a] with the state it leaves. *)
Record generator : Type := mkGenerator {
  gen_state : Type;
  seed_state : Z -> gen_state;
  choice : nat -> nat -> gen_state -> list nat * gen_state
}.

(** The draws are positions of the axis, as many as asked for; NumPy
    refuses to draw from nothing. *)
Definition choice_in_range (g : generator) : Prop :=
  forall (a size : nat) (st : gen_state g),
    (0 < a \/ size = 0)%nat ->
    List.length (fst (choice g a size st)) = size
    /\ Forall (fun i => (i < a)%nat) (fst (choice g a size st)).

(** A computation that reads and replaces the global generator state and
    may raise. *)
Definition rand (g : generator) (A : Type) : Type :=
  gen_state g -> outcome (A * gen_state g).

Definition ret {g : generator} {A : Type} (a : A) : rand g A :=
  fun st => Ret (a, st).

Definition bind {g : generator} {A B : Type} (m : rand g A)
  (k : A -> rand g B) : rand g B :=
  fun st =>
    match m st with
    | Ret (a, st') => k a st'
    | Raise e => Raise e
    end.

Definition lift {g : generator} {A : Type} (o : outcome A) : rand g A :=
  fun st =>
    match o with
    | Ret a => Ret (a, st)
    | Raise e => Raise e
    end.

Notation "x <- m ;; k" := (bind m (fun x => k))
  (at level 61, m at next level, right associativity).

(** [np.random.seed(s)] *)
Definition np_random_seed {g : generator} (s : Z) : rand g unit :=
  fun _ => Ret (tt, seed_state g s).

(** [d.take(locs)]: the rows at the given positions. *)
Fixpoint take (d : frame) (locs : list nat) : outcome frame :=
  match locs with
  | [] => Ret []
  | i :: rest =>
      match nth_error d i with
      | None => Raise IndexError
      | Some r =>
          match take d rest with
          | Ret rows => Ret (r :: rows)
          | Raise e => Raise e
          end
      end
  end.

(** [d.sample(n=n, replace=True)]: positions drawn by the global
    generator, then [take]. *)
Definition sample {g : generator} (d : frame) (n : nat) : rand g frame :=
  fun st =>
    let (locs, st') := choice g (List.length d) n st in
    match take d locs with
    | Ret rows => Ret (rows, st')
    | Raise e => Raise e
    end.

(** The loop [for _ in range(n_iterations)], appending to [ratios]. *)
Fixpoint bootstrap_loop {g : generator} (dt : dtypes) (n_iterations : nat)
  (u : frame) (sample_size : nat) (ratios : list float64)
  : rand g (list float64) :=
  match n_iterations with
  | O => ret ratios
  | S n =>
      smp <- sample u sample_size ;;
      ratio <- lift (calculate_ratio_at dt smp) ;;
      bootstrap_loop dt n u sample_size (ratios ++ [ratio])
  end.

Definition fneg (a : float64) : float64 :=
  match a with
  | Fin x => fin (- x)
  | PInf => NInf
  | NInf => PInf
  | NaN => NaN
  end.

Definition fsub (a b : float64) : float64 := fadd a (fneg b).

(** An infinity times a finite value: NaN for zero, else by the signs. *)
Definition inf_times (positive : bool) (x : Q) : float64 :=
  if Qis_zero x then NaN
  else if Bool.eqb positive (Qsign_pos x) then PInf else NInf.

(** IEEE multiplication on values. *)
Definition fmul (a b : float64) : float64 :=
  match a, b with
  | NaN, _ | _, NaN => NaN
  | Fin x, Fin y => fin (x * y)
  | Fin x, PInf | PInf, Fin x => inf_times true x
  | Fin x, NInf | NInf, Fin x => inf_times false x
  | PInf, PInf | NInf, NInf => PInf
  | PInf, NInf | NInf, PInf => NInf
  end.

(** [np.mean] of an array: the sum over the size, NaN for no element.
    The value is exact, so the order NumPy adds in does not show. *)
Definition np_mean (xs : list float64) : float64 :=
  fdiv (fold_left fadd xs (of_Z 0)) (of_Z (Z.of_nat (List.length xs))).

(** A square root, kept as a term. *)
Inductive root : Type :=
| Sqrt (x : float64).

(** [np.std]: the square root of the mean of the squared deviations from
    the mean. *)
Definition np_std (xs : list float64) : root :=
  let arrmean := np_mean xs in
  Sqrt (np_mean (map (fun x => fmul (fsub x arrmean) (fsub x arrmean)) xs)).

(** The cell under "Standard Error of the Sex Ratio". *)
Definition bootstrap_cell {g : generator} (dt : dtypes) (u : frame)
  : rand g root :=
  let n_iterations := 1000%nat in
  let sample_size := List.length u in
  _ <- np_random_seed 314 ;;
  ratios <- bootstrap_loop dt n_iterations u sample_size [] ;;
  ret (np_std ratios).

(** The positions the generator draws in [n] successive calls. *)
Fixpoint draws (g : generator) (n a size : nat) (st : gen_state g)
  : list (list nat) * gen_state g :=
  match n with
  | O => ([], st)
  | S n' =>
      let (locs, st1) := choice g a size st in
      let (rest, st2) := draws g n' a size st1 in
      (locs :: rest, st2)
  end.

(** The rows of a sample are the rows of the table at the positions. *)
Definition rows_at (u : frame) (locs : list nat) (smp : frame) : Prop :=
  Forall2 (fun i r => nth_error u i = Some r) locs smp.

(** The largest absolute value of a count of the table. *)
Definition max_abs (u : frame) : Z :=
  fold_right Z.max 0
    (map (fun r => Z.max (Z.abs (Spec.count_of (numberOfSons r)))
                         (Z.abs (Spec.count_of (numberOfDaughters r)))) u).

(** The sums of every sample of the size of the table are exact. *)
Definition exact_resamples (u : frame) : bool :=
  Z.of_nat (List.length u) * max_abs u <=? 2 ^ 53.

(** An instance to run the bootstrap cell on: a counter as generator
    state, positions taken round the axis from the counter. *)
Definition counter_generator : generator :=
  mkGenerator nat
              (fun s => Z.to_nat s)
              (fun a size st =>
                 (map (fun k => Nat.modulo (st + k) a) (seq 0 size),
                  (st + size)%nat)).

(** * Properties *)

(** ** Arithmetic of the float model *)

Lemma Qred_inject_Z (z : Z) : Qred (inject_Z z) = inject_Z z.
Proof.
  apply Qred_identity. simpl. apply Z.gcd_1_r.
Qed.

Lemma fadd_of_Z (a b : Z) : fadd (of_Z a) (of_Z b) = of_Z (a + b).
Proof.
  unfold of_Z, fadd, fin. f_equal.
  rewrite <- inject_Z_plus. apply Qred_inject_Z.
Qed.

Lemma fadd_NaN_l (x : float64) : fadd NaN x = NaN.
Proof. reflexivity. Qed.

Lemma fadd_NaN_r (x : float64) : fadd x NaN = NaN.
Proof. destruct x; reflexivity. Qed.

Lemma fold_fadd_NaN (s : list float64) : fold_left fadd s NaN = NaN.
Proof.
  induction s as [|x s IH]; simpl; [reflexivity | exact IH].
Qed.

Lemma fdiv_of_Z (s d : Z) : fdiv (of_Z s) (of_Z d) = ieee_quotient s d.
Proof.
  unfold fdiv, of_Z, ieee_quotient, Qis_zero, Qsign_pos, Qsign_neg, fin.
  simpl. reflexivity.
Qed.

Lemma py_div_of_Z (x : float64) (d : Z) :
  py_div x (of_Z d)
  = if d =? 0 then Raise ZeroDivisionError else Ret (fdiv x (of_Z d)).
Proof. reflexivity. Qed.

(** ** Column sums *)

Lemma np_sum_from (f : member -> option Z) (d : frame) (a : Z) :
  fold_left fadd (filter notna (column f d)) (of_Z a)
  = of_Z (a + present_sum f d).
Proof.
  revert a. induction d as [|r d IH]; intros a.
  - unfold present_sum. simpl. now rewrite Z.add_0_r.
  - unfold present_sum, Zsum in *. cbn [column map fold_right].
    destruct (f r) as [z|]; cbn [of_cell filter notna isna negb of_Z fold_left Spec.count_of].
    + fold (of_Z a) (of_Z z). rewrite fadd_of_Z. unfold column in IH.
      rewrite IH. f_equal. lia.
    + fold (of_Z a). unfold column in IH. rewrite IH. reflexivity.
Qed.

Lemma np_sum_column (f : member -> option Z) (d : frame) :
  np_sum (column f d) = of_Z (present_sum f d).
Proof.
  unfold np_sum. now rewrite np_sum_from.
Qed.

Lemma py_sum_from (f : member -> option Z) (d : frame) (a : Z) :
  fold_left fadd (column f d) (of_Z a)
  = if all_present f d then of_Z (a + present_sum f d) else NaN.
Proof.
  revert a. induction d as [|r d IH]; intros a.
  - unfold present_sum. simpl. now rewrite Z.add_0_r.
  - unfold present_sum, all_present, Zsum in *.
    cbn [column map fold_right forallb fold_left].
    destruct (f r) as [z|]; cbn [of_cell notna isna negb andb Spec.count_of].
    + rewrite fadd_of_Z. unfold column in IH. rewrite IH.
      change (notna (of_Z z)) with true. cbn [andb].
      destruct (forallb _ d); [f_equal; lia | reflexivity].
    + rewrite fadd_NaN_r. apply fold_fadd_NaN.
Qed.

Lemma py_sum_column (f : member -> option Z) (d : frame) :
  py_sum (column f d)
  = if all_present f d then of_Z (present_sum f d) else NaN.
Proof.
  unfold py_sum. now rewrite py_sum_from.
Qed.

(** ** The aggregate sex ratio *)

Lemma calculate_ratio_eq (data : frame) :
  calculate_ratio data
  = ieee_quotient (present_sum numberOfSons data)
                  (present_sum numberOfDaughters data).
Proof.
  unfold calculate_ratio. rewrite !np_sum_column. apply fdiv_of_Z.
Qed.

Lemma agg_sex_ratio_eq (data : frame) :
  agg_sex_ratio data
  = if all_present numberOfDaughters data then
      if present_sum numberOfDaughters data =? 0
      then Raise ZeroDivisionError
      else if all_present numberOfSons data
           then Ret (ieee_quotient (present_sum numberOfSons data)
                                   (present_sum numberOfDaughters data))
           else Ret NaN
    else Ret NaN.
Proof.
  unfold agg_sex_ratio. rewrite !py_sum_column.
  destruct (all_present numberOfDaughters data).
  - rewrite py_div_of_Z.
    destruct (present_sum numberOfDaughters data =? 0); [reflexivity|].
    destruct (all_present numberOfSons data).
    + now rewrite fdiv_of_Z.
    + reflexivity.
  - destruct (all_present numberOfSons data); reflexivity.
Qed.

(** C1, as stated, fails twice: with no daughter in the table the code
    returns a bare infinity where the sentinel is promised, and a row with
    only its sons known still adds to the numerator. *)
Lemma sex_ratio_not_as_specified :
  ~ sex_ratio_as_specified zero_daughters
  /\ ~ sex_ratio_as_specified daughters_unknown.
Proof.
  split; unfold sex_ratio_as_specified; vm_compute; discriminate.
Qed.

(** ** Proportion of daughters *)

Lemma of_Z_fin (z : Z) : of_Z z = fin (inject_Z z).
Proof. unfold fin, of_Z. now rewrite Qred_inject_Z. Qed.

Lemma fadd_fin (a b : Q) : fadd (fin a) (fin b) = fin (a + b).
Proof.
  unfold fadd, fin. f_equal. apply Qred_complete.
  now rewrite !Qred_correct.
Qed.

Lemma fold_fadd_fin (qs : list Q) (a : Q) :
  fold_left fadd (map fin qs) (fin a) = fin (a + Spec.Qsum qs).
Proof.
  revert a. induction qs as [|q qs IH]; intros a; cbn [map fold_left Spec.Qsum fold_right].
  - unfold fin. f_equal. apply Qred_complete. ring.
  - rewrite fadd_fin, IH. unfold fin. f_equal. apply Qred_complete.
    unfold Spec.Qsum. ring.
Qed.

Lemma filter_notna_fin (qs : list Q) : filter notna (map fin qs) = map fin qs.
Proof.
  induction qs as [|q qs IH]; [reflexivity|].
  cbn [map filter]. unfold fin at 1. cbn [notna isna negb]. now rewrite IH.
Qed.

Lemma series_mean_fin (qs : list Q) :
  series_mean (map fin qs)
  = match Spec.mean qs with Some q => Fin q | None => NaN end.
Proof.
  unfold series_mean. rewrite filter_notna_fin.
  destruct qs as [|q qs]; [reflexivity|].
  set (l := q :: qs).
  change (match map fin l with [] => NaN | _ => ?x end) with x.
  change (Spec.mean l)
    with (Some (Qred (Spec.Qsum l / inject_Z (Z.of_nat (List.length l))))).
  rewrite length_map, (of_Z_fin 0), fold_fadd_fin.
  unfold fdiv, fin, of_Z, Qis_zero. cbn [Qnum inject_Z].
  destruct (Z.eqb_spec (Z.of_nat (List.length l)) 0) as [E|_].
  - subst l. discriminate E.
  - f_equal. apply Qred_complete. rewrite Qred_correct.
    unfold inject_Z at 1. now rewrite Qplus_0_l.
Qed.

Lemma total_kids_spec (r : member) :
  total_kids r
  = match Spec.total_children r with Some t => of_Z t | None => NaN end.
Proof.
  unfold total_kids, Spec.total_children.
  destruct (numberOfSons r) as [s|], (numberOfDaughters r) as [d|];
    cbn [of_cell]; try reflexivity.
  rewrite fadd_of_Z. f_equal. lia.
Qed.

Lemma fgt0_total_kids (r : member) :
  fgt0 (total_kids r) = Spec.has_children r.
Proof.
  rewrite total_kids_spec. unfold Spec.has_children.
  destruct (Spec.total_children r); reflexivity.
Qed.

Lemma df_kids_spec (u : frame) : df_kids u = filter Spec.has_children u.
Proof.
  unfold df_kids. apply filter_ext. exact fgt0_total_kids.
Qed.

Lemma prop_daughter_share (r : member) :
  Spec.has_children r = true -> prop_daughter r = fin (Spec.share r).
Proof.
  unfold prop_daughter. rewrite total_kids_spec.
  unfold Spec.has_children, Spec.share, Spec.total_children.
  destruct (numberOfSons r) as [s|], (numberOfDaughters r) as [d|];
    try discriminate.
  cbn [of_cell Spec.count_of]. intros H. apply Z.ltb_lt in H.
  rewrite fdiv_of_Z. unfold ieee_quotient, fin.
  destruct (Z.eqb_spec (s + d) 0); [lia | reflexivity].
Qed.


(** ** Unique members *)

Lemma drop_duplicates_cons (r : member) (d : frame) :
  drop_duplicates (r :: d)
  = if existsb (Z.eqb (mpsno r)) (map mpsno d)
    then drop_duplicates d
    else r :: drop_duplicates d.
Proof.
  unfold drop_duplicates. cbn [map duplicated_last select].
  now destruct (existsb _ _).
Qed.

Lemma existsb_eqb_In (k : Z) (ks : list Z) :
  existsb (Z.eqb k) ks = true <-> In k ks.
Proof.
  rewrite existsb_exists. split.
  - intros [x [Hin Hx]]. apply Z.eqb_eq in Hx. now subst.
  - intros Hin. exists k. split; [assumption | apply Z.eqb_refl].
Qed.

Lemma drop_duplicates_keys_incl (d : frame) (k : Z) :
  In k (map mpsno (drop_duplicates d)) -> In k (map mpsno d).
Proof.
  induction d as [|r d IH]; [trivial|].
  rewrite drop_duplicates_cons.
  destruct (existsb _ _); cbn [map In]; intuition.
Qed.

Lemma drop_duplicates_NoDup (d : frame) :
  NoDup (map mpsno (drop_duplicates d)).
Proof.
  induction d as [|r d IH]; [constructor|].
  rewrite drop_duplicates_cons.
  destruct (existsb _ _) eqn:E; [assumption|].
  cbn [map]. constructor; [|assumption].
  intros Hin. apply drop_duplicates_keys_incl, existsb_eqb_In in Hin.
  congruence.
Qed.

Lemma drop_duplicates_fixed (d : frame) :
  NoDup (map mpsno d) -> drop_duplicates d = d.
Proof.
  induction d as [|r d IH]; [reflexivity|].
  cbn [map]. intros H. apply NoDup_cons_iff in H. destruct H as [Hnot Hnd].
  rewrite drop_duplicates_cons.
  destruct (existsb _ _) eqn:E.
  - apply existsb_eqb_In in E. contradiction.
  - now rewrite IH.
Qed.

Lemma last_with_None (k : Z) (d : frame) :
  Spec.last_with k d = None <-> ~ In k (map mpsno d).
Proof.
  induction d as [|r d IH]; cbn [Spec.last_with map In]; [tauto|].
  destruct (Spec.last_with k d) as [r'|].
  - split; [discriminate|]. intros H. exfalso. apply H. right.
    destruct (in_dec Z.eq_dec k (map mpsno d)) as [Hin|Hout]; [assumption|].
    apply IH in Hout. discriminate.
  - destruct (Z.eqb_spec (mpsno r) k) as [E|E].
    + split; [discriminate | tauto].
    + split; [|reflexivity]. intros _ [H|H]; [contradiction|].
      now apply (proj1 IH).
Qed.

Lemma drop_duplicates_group (d : frame) (k : Z) :
  filter (fun r => mpsno r =? k) (drop_duplicates d)
  = match Spec.last_with k d with Some r => [r] | None => [] end.
Proof.
  induction d as [|r d IH]; [reflexivity|].
  rewrite drop_duplicates_cons. cbn [Spec.last_with].
  destruct (existsb _ _) eqn:E.
  - rewrite IH. destruct (Spec.last_with k d) eqn:L; [reflexivity|].
    destruct (Z.eqb_spec (mpsno r) k) as [Ek|Ek]; [|reflexivity].
    apply existsb_eqb_In in E. apply last_with_None in L.
    subst k. contradiction.
  - cbn [filter]. rewrite IH.
    destruct (Z.eqb_spec (mpsno r) k) as [Ek|Ek].
    + assert (L : Spec.last_with k d = None).
      { apply last_with_None. intros Hin. subst k.
        apply existsb_eqb_In in Hin. congruence. }
      now rewrite L.
    + now destruct (Spec.last_with k d).
Qed.

Lemma first_appearance_snoc (ks : list Z) (k : Z) :
  Spec.first_appearance (ks ++ [k])
  = Spec.first_appearance ks ++ (if existsb (Z.eqb k) ks then [] else [k]).
Proof.
  induction ks as [|a ks IH]; [reflexivity|].
  cbn [app Spec.first_appearance existsb]. rewrite IH, filter_app. f_equal.
  f_equal. destruct (existsb (Z.eqb k) ks).
  - now rewrite orb_true_r.
  - rewrite orb_false_r. cbn [filter]. now destruct (k =? a).
Qed.

Lemma existsb_rev {A : Type} (f : A -> bool) (l : list A) :
  existsb f (rev l) = existsb f l.
Proof.
  induction l as [|a l IH]; [reflexivity|].
  cbn [rev existsb]. rewrite existsb_app, IH. cbn [existsb].
  rewrite orb_false_r. apply orb_comm.
Qed.

Lemma drop_duplicates_order (d : frame) :
  map mpsno (drop_duplicates d)
  = rev (Spec.first_appearance (rev (map mpsno d))).
Proof.
  induction d as [|r d IH]; [reflexivity|].
  rewrite drop_duplicates_cons. cbn [map rev].
  rewrite first_appearance_snoc, rev_app_distr, existsb_rev, <- IH.
  now destruct (existsb _ _).
Qed.

(** C3, as the code has it: under [keep='last'] the rows kept for a key
    are exactly its last row in the input, dropping duplicates twice is
    dropping them once, and the kept rows stay in input order, so the keys
    come out in the order of their last appearances. *)
Theorem drop_duplicates_keep_last (d : frame) :
  (forall k : Z,
     filter (fun r => mpsno r =? k) (drop_duplicates d)
     = match Spec.last_with k d with Some r => [r] | None => [] end)
  /\ drop_duplicates (drop_duplicates d) = drop_duplicates d
  /\ map mpsno (drop_duplicates d)
     = rev (Spec.first_appearance (rev (map mpsno d))).
Proof.
  split; [|split].
  - intros k. apply drop_duplicates_group.
  - apply drop_duplicates_fixed, drop_duplicates_NoDup.
  - apply drop_duplicates_order.
Qed.

(** C3, as stated, fails on the order: member 7 appears first but its
    kept row is the last one, after member 9. *)
Lemma drop_duplicates_not_first_appearance :
  map mpsno (drop_duplicates seen_twice)
  <> Spec.first_appearance (map mpsno seen_twice).
Proof.
  vm_compute. discriminate.
Qed.

(** ** Sorted keys *)

Section InsertUniq.

Context {A : Type} (cmp : A -> A -> comparison).
Hypothesis cmp_eq : forall a b, cmp a b = Eq -> a = b.
Hypothesis cmp_refl : forall a, cmp a a = Eq.
Hypothesis cmp_antisym : forall a b, cmp a b = CompOpp (cmp b a).
Hypothesis cmp_trans : forall a b c, cmp a b = Lt -> cmp b c = Lt -> cmp a c = Lt.

Lemma cmp_gt_lt (a b : A) : cmp a b = Gt -> cmp b a = Lt.
Proof.
  intros H. rewrite cmp_antisym, H. reflexivity.
Qed.

Lemma cmp_lt_gt (a b : A) : cmp a b = Lt -> cmp b a = Gt.
Proof.
  intros H. rewrite cmp_antisym, H. reflexivity.
Qed.

Lemma insert_uniq_In (a x : A) (l : list A) :
  In x (insert_uniq cmp a l) <-> x = a \/ In x l.
Proof.
  induction l as [|y l IH]; cbn [insert_uniq In].
  - intuition.
  - destruct (cmp a y) eqn:E; cbn [In].
    + apply cmp_eq in E. subst y. intuition.
    + intuition.
    + rewrite IH. intuition.
Qed.

Lemma fold_insert_uniq_In (x : A) (l : list A) :
  In x (fold_right (insert_uniq cmp) [] l) <-> In x l.
Proof.
  induction l as [|a l IH]; cbn [fold_right In]; [tauto|].
  rewrite insert_uniq_In, IH. intuition.
Qed.

Lemma insert_uniq_comm (a b : A) (l : list A) :
  insert_uniq cmp a (insert_uniq cmp b l)
  = insert_uniq cmp b (insert_uniq cmp a l).
Proof.
  induction l as [|y l IH]; cbn [insert_uniq].
  - destruct (cmp a b) eqn:Eab.
    + apply cmp_eq in Eab. subst b. now rewrite cmp_refl.
    + now rewrite (cmp_lt_gt _ _ Eab).
    + now rewrite (cmp_gt_lt _ _ Eab).
  - destruct (cmp a y) eqn:Eay, (cmp b y) eqn:Eby; cbn [insert_uniq];
      rewrite ?Eay, ?Eby; try reflexivity.
    + apply cmp_eq in Eay. subst y. now rewrite (cmp_lt_gt _ _ Eby).
    + apply cmp_eq in Eby. subst y. now rewrite (cmp_lt_gt _ _ Eay).
    + destruct (cmp a b) eqn:Eab.
      * apply cmp_eq in Eab. subst b. now rewrite cmp_refl.
      * now rewrite (cmp_lt_gt _ _ Eab).
      * now rewrite (cmp_gt_lt _ _ Eab).
    + assert (Eab : cmp a b = Lt).
      { apply cmp_trans with y; [assumption | now apply cmp_gt_lt]. }
      now rewrite (cmp_lt_gt _ _ Eab).
    + assert (Eba : cmp b a = Lt).
      { apply cmp_trans with y; [assumption | now apply cmp_gt_lt]. }
      now rewrite (cmp_lt_gt _ _ Eba).
    + now rewrite IH.
Qed.

Lemma fold_insert_uniq_perm (l l' : list A) :
  Permutation l l' ->
  fold_right (insert_uniq cmp) [] l = fold_right (insert_uniq cmp) [] l'.
Proof.
  induction 1 as [|x l l' _ IH|x y l|l l' l'' _ IH1 _ IH2]; cbn [fold_right].
  - reflexivity.
  - now rewrite IH.
  - apply insert_uniq_comm.
  - now rewrite IH1.
Qed.

End InsertUniq.

Lemma ascii_compare_trans (a b c : ascii) :
  Ascii.compare a b = Lt -> Ascii.compare b c = Lt -> Ascii.compare a c = Lt.
Proof.
  unfold Ascii.compare. rewrite !N.compare_lt_iff. apply N.lt_trans.
Qed.

Lemma string_compare_refl (s : string) : String.compare s s = Eq.
Proof.
  induction s as [|c s IH]; [reflexivity|].
  cbn [String.compare]. unfold Ascii.compare. now rewrite N.compare_refl.
Qed.

Lemma string_compare_trans (s1 s2 s3 : string) :
  String.compare s1 s2 = Lt -> String.compare s2 s3 = Lt ->
  String.compare s1 s3 = Lt.
Proof.
  revert s2 s3. induction s1 as [|c1 s1 IH]; intros [|c2 s2] [|c3 s3];
    cbn [String.compare]; try discriminate; try reflexivity.
  destruct (Ascii.compare c1 c2) eqn:E12; try discriminate;
    destruct (Ascii.compare c2 c3) eqn:E23; try discriminate; intros H1 H2.
  - apply Ascii.compare_eq_iff in E12, E23. subst c2 c3.
    unfold Ascii.compare. rewrite N.compare_refl. now apply IH with s2.
  - apply Ascii.compare_eq_iff in E12. subst c2. now rewrite E23.
  - apply Ascii.compare_eq_iff in E23. subst c3. now rewrite E12.
  - now rewrite (ascii_compare_trans _ _ _ E12 E23).
Qed.

Lemma sorted_keys_In (k : string) (keys : list string) :
  In k (sorted_keys keys) <-> In k keys.
Proof.
  apply fold_insert_uniq_In. exact String.compare_eq_iff.
Qed.

Lemma sorted_keys_perm (keys keys' : list string) :
  Permutation keys keys' -> sorted_keys keys = sorted_keys keys'.
Proof.
  apply fold_insert_uniq_perm.
  - exact String.compare_eq_iff.
  - exact string_compare_refl.
  - exact String.compare_antisym.
  - exact string_compare_trans.
Qed.

(** ** Rows with no counts *)

Lemma present_sum_app (f : member -> option Z) (a b : frame) :
  present_sum f (a ++ b) = present_sum f a + present_sum f b.
Proof.
  unfold present_sum, Zsum. induction a as [|r a IH]; [reflexivity|].
  cbn [app map fold_right]. rewrite IH. lia.
Qed.

Lemma df_small_drop (pre post : frame) (k : Z) (party session : string) :
  df_small (pre ++ no_counts k party session :: post) = df_small (pre ++ post).
Proof.
  unfold df_small. now rewrite !filter_app.
Qed.

Lemma group_ratio_drop (key : member -> string) (pre post : frame)
  (k : Z) (party session g : string) :
  group_ratio key (pre ++ no_counts k party session :: post) g
  = group_ratio key (pre ++ post) g.
Proof.
  unfold group_ratio, group_rows. rewrite !np_sum_column, !filter_app.
  cbn [filter]. destruct (String.eqb _ g); [|reflexivity].
  rewrite !present_sum_app.
  change (no_counts k party session :: filter (fun r => String.eqb (key r) g) post)
    with ([no_counts k party session] ++ filter (fun r => String.eqb (key r) g) post).
  rewrite !present_sum_app. reflexivity.
Qed.

Lemma missing_count_add (f : member -> option Z) (pre post : frame) (r : member) :
  f r = None ->
  missing_count f (pre ++ r :: post) = S (missing_count f (pre ++ post)).
Proof.
  intros H. unfold missing_count, column.
  rewrite !map_app, !filter_app, !length_app. cbn [map filter].
  rewrite H. cbn [of_cell isna Datatypes.length]. lia.
Qed.

(** ** Aggregates do not depend on row order *)

Lemma perm_filter {A : Type} (f : A -> bool) (l l' : list A) :
  Permutation l l' -> Permutation (filter f l) (filter f l').
Proof.
  induction 1 as [|x l l' _ IH|x y l|l l' l'' _ IH1 _ IH2]; cbn [filter].
  - constructor.
  - destruct (f x); [now constructor | assumption].
  - destruct (f x), (f y); try apply Permutation_refl. constructor.
  - now transitivity (filter f l').
Qed.

Lemma present_sum_perm (f : member -> option Z) (d d' : frame) :
  Permutation d d' -> present_sum f d = present_sum f d'.
Proof.
  unfold present_sum, Zsum.
  induction 1 as [|x l l' _ IH|x y l|l l' l'' _ IH1 _ IH2];
    cbn [map fold_right]; lia.
Qed.

Lemma all_present_perm (f : member -> option Z) (d d' : frame) :
  Permutation d d' -> all_present f d = all_present f d'.
Proof.
  unfold all_present.
  induction 1 as [|x l l' _ IH|x y l|l l' l'' _ IH1 _ IH2]; cbn [forallb].
  - reflexivity.
  - now rewrite IH.
  - now rewrite !andb_assoc, (andb_comm (notna _)).
  - now rewrite IH1.
Qed.

Lemma fadd_comm (a b : float64) : fadd a b = fadd b a.
Proof.
  destruct a as [x| | |], b as [y| | |]; try reflexivity.
  unfold fadd, fin. f_equal. apply Qred_complete. ring.
Qed.

Lemma fadd_assoc (a b c : float64) : fadd (fadd a b) c = fadd a (fadd b c).
Proof.
  destruct a as [x| | |], b as [y| | |], c as [z| | |]; try reflexivity.
  unfold fadd, fin. f_equal. apply Qred_complete.
  rewrite !Qred_correct. ring.
Qed.

Lemma fold_fadd_perm (s s' : list float64) :
  Permutation s s' -> forall a, fold_left fadd s a = fold_left fadd s' a.
Proof.
  induction 1 as [|x l l' _ IH|x y l|l l' l'' _ IH1 _ IH2];
    intros a; cbn [fold_left].
  - reflexivity.
  - apply IH.
  - f_equal. rewrite !fadd_assoc. f_equal. apply fadd_comm.
  - now rewrite IH1.
Qed.

Lemma series_mean_perm (s s' : list float64) :
  Permutation s s' -> series_mean s = series_mean s'.
Proof.
  intros H. apply (perm_filter notna) in H. unfold series_mean.
  set (v := filter notna s) in *. set (v' := filter notna s') in *.
  clearbody v v'. destruct v as [|x v], v' as [|x' v'].
  - reflexivity.
  - apply Permutation_nil in H. discriminate H.
  - apply Permutation_sym, Permutation_nil in H. discriminate H.
  - now rewrite (fold_fadd_perm _ _ H), (Permutation_length H).
Qed.

Lemma calculate_ratio_perm (d d' : frame) :
  Permutation d d' -> calculate_ratio d = calculate_ratio d'.
Proof.
  intros H. rewrite !calculate_ratio_eq.
  now rewrite (present_sum_perm _ _ _ H), (present_sum_perm _ _ _ H).
Qed.

Lemma agg_sex_ratio_perm (d d' : frame) :
  Permutation d d' -> agg_sex_ratio d = agg_sex_ratio d'.
Proof.
  intros H. rewrite !agg_sex_ratio_eq.
  rewrite (present_sum_perm numberOfSons _ _ H).
  rewrite (present_sum_perm numberOfDaughters _ _ H).
  rewrite (all_present_perm numberOfSons _ _ H).
  now rewrite (all_present_perm numberOfDaughters _ _ H).
Qed.

Lemma prop_daughter_mean_perm (d d' : frame) :
  Permutation d d' -> prop_daughter_mean d = prop_daughter_mean d'.
Proof.
  intros H. apply series_mean_perm, Permutation_map.
  now apply perm_filter.
Qed.

Lemma total_kids_mean_perm (d d' : frame) :
  Permutation d d' -> total_kids_mean d = total_kids_mean d'.
Proof.
  intros H. now apply series_mean_perm, Permutation_map.
Qed.

Lemma group_ratio_perm (key : member -> string) (d d' : frame) (k : string) :
  Permutation d d' -> group_ratio key d k = group_ratio key d' k.
Proof.
  intros H. unfold group_ratio, group_rows. rewrite !np_sum_column.
  pose proof (perm_filter (fun r => String.eqb (key r) k) _ _ H) as Hg.
  now rewrite (present_sum_perm numberOfSons _ _ Hg),
              (present_sum_perm numberOfDaughters _ _ Hg).
Qed.

Lemma sex_ratio_table_perm (key : member -> string) (d d' : frame) :
  Permutation d d' -> sex_ratio_table key d = sex_ratio_table key d'.
Proof.
  intros H. unfold sex_ratio_table.
  rewrite (sorted_keys_perm _ _ (Permutation_map key H)).
  apply map_ext. intros k. now apply group_ratio_perm.
Qed.

Lemma mean_table_perm (key : member -> string) (col : member -> float64)
  (d d' : frame) :
  Permutation d d' -> mean_table key col d = mean_table key col d'.
Proof.
  intros H. unfold mean_table.
  rewrite (sorted_keys_perm _ _ (Permutation_map key H)).
  apply map_ext. intros k. f_equal.
  apply series_mean_perm, Permutation_map. now apply perm_filter.
Qed.

(** C5, as stated, fails on the empty table for the cell under
    "Agg. Sex Ratio": it raises. *)
Lemma agg_sex_ratio_empty_raises :
  ~ returns_without_raising (agg_sex_ratio []).
Proof.
  intros [x H]. vm_compute in H. discriminate H.
Qed.

(** ** The party table *)

Lemma insert_desc_perm (r : ratio_row) (l : list ratio_row) :
  Permutation (insert_desc r l) (r :: l).
Proof.
  induction l as [|x l IH]; cbn [insert_desc]; [apply Permutation_refl|].
  destruct (before_desc _ _); [apply Permutation_refl|].
  transitivity (x :: r :: l); [now constructor | constructor].
Qed.

Lemma sort_values_desc_perm (t : list ratio_row) :
  Permutation (sort_values_desc t) t.
Proof.
  induction t as [|r t IH]; cbn [sort_values_desc fold_right]; [constructor|].
  transitivity (r :: sort_values_desc t);
    [apply insert_desc_perm | now constructor].
Qed.

Lemma firstn_In {A : Type} (n : nat) (l : list A) (x : A) :
  In x (firstn n l) -> In x l.
Proof.
  intros H. rewrite <- (firstn_skipn n l). apply in_or_app. now left.
Qed.

Lemma party_pdf_In (u : frame) (row : ratio_row) :
  In row (party_pdf u) ->
  In row (sex_ratio_table partySname u) /\ enough_data row = true.
Proof.
  unfold party_pdf. intros H. apply firstn_In in H.
  apply (Permutation_in _ (sort_values_desc_perm _)) in H.
  now apply filter_In in H.
Qed.

Lemma sex_ratio_table_labels (key : member -> string) (d : frame) :
  map label (sex_ratio_table key d) = sorted_keys (map key d).
Proof.
  unfold sex_ratio_table. rewrite map_map. cbn [group_ratio label].
  apply map_id.
Qed.

(** C8, as stated, fails: a party with two children has its row in [adf]
    and none in [pdf]. *)
Lemma small_party_not_reported : ~ every_group_reported small_party.
Proof.
  intros H. specialize (H (group_ratio partySname small_party "CPI")).
  assert (Hin : In (group_ratio partySname small_party "CPI")
                   (sex_ratio_table partySname small_party)).
  { vm_compute. right. left. reflexivity. }
  apply H in Hin. vm_compute in Hin.
  destruct Hin as [E|[]]. discriminate E.
Qed.

(** ** The chi-square test on a degenerate table *)

Lemma Zsum_pos (counts : list Z) :
  counts <> [] -> Forall (fun c => 0 < c) counts -> 0 < Zsum counts.
Proof.
  intros Hne H. induction H as [|c cs Hc Hcs IH]; [congruence|].
  unfold Zsum in *. cbn [fold_right]. destruct cs as [|c' cs].
  - cbn [fold_right]. lia.
  - assert (0 < fold_right Z.add 0 (c' :: cs)) by (apply IH; discriminate).
    lia.
Qed.

Lemma fdiv_scaled (c T : Z) : T <> 0 -> fdiv (of_Z (c * T)) (of_Z T) = of_Z c.
Proof.
  intros HT. rewrite fdiv_of_Z. unfold ieee_quotient, of_Z.
  destruct (Z.eqb_spec T 0) as [E|_]; [contradiction|].
  f_equal. rewrite <- (Qred_inject_Z c). apply Qred_complete.
  rewrite inject_Z_mult. field.
  intros H. apply HT. unfold Qeq in H. cbn in H. lia.
Qed.

Lemma no_negative_positive (counts : list Z) :
  Forall (fun c => 0 < c) counts -> existsb (fun x => x <? 0) counts = false.
Proof.
  induction 1 as [|c cs Hc _ IH]; [reflexivity|].
  cbn [existsb]. rewrite IH. destruct (Z.ltb_spec c 0); [lia | reflexivity].
Qed.

Lemma no_zero_positive (counts : list Z) :
  Forall (fun c => 0 < c) counts ->
  existsb fis_zero (map of_Z counts) = false.
Proof.
  induction 1 as [|c cs Hc _ IH]; [reflexivity|].
  cbn [map existsb]. rewrite IH. unfold of_Z, fis_zero, Qis_zero.
  cbn [Qnum inject_Z]. destruct (Z.eqb_spec c 0); [lia | reflexivity].
Qed.

Lemma one_column_row_sums (counts : list Z) :
  row_sums (one_column counts) = counts.
Proof.
  unfold row_sums, one_column. rewrite map_map. unfold Zsum. cbn [fold_right].
  rewrite <- (map_id counts) at 2. apply map_ext. intros c. lia.
Qed.

Lemma one_column_col_sums (counts : list Z) :
  counts <> [] -> col_sums (one_column counts) = [Zsum counts].
Proof.
  destruct counts as [|c cs]; [congruence|]. intros _.
  unfold col_sums, one_column. cbn [map ncols Datatypes.length seq].
  rewrite map_map. cbn [nth]. now rewrite map_id.
Qed.

Lemma one_column_shape (counts : list Z) :
  counts <> [] ->
  ncols (one_column counts) = 1%nat
  /\ List.length (one_column counts) = List.length counts.
Proof.
  destruct counts as [|c cs]; [congruence|]. intros _.
  unfold one_column. now rewrite length_map.
Qed.

Lemma chi2_one_column (counts : list Z) :
  counts <> [] -> Forall (fun c => 0 < c) counts ->
  chi2_contingency (one_column counts)
  = Ret (degenerate_result (map (fun c => [of_Z c]) counts)).
Proof.
  intros Hne Hpos. pose proof (Zsum_pos _ Hne Hpos) as HT.
  assert (He : expected_freq (one_column counts)
               = map (fun c => [of_Z c]) counts).
  { unfold expected_freq, grand_total.
    rewrite one_column_row_sums, one_column_col_sums by assumption.
    apply map_ext. intros x. cbn [map]. rewrite fdiv_scaled by lia.
    reflexivity. }
  unfold chi2_contingency. rewrite He.
  assert (H1 : existsb (existsb (fun x => x <? 0)) (one_column counts) = false).
  { unfold one_column. clear -Hpos. induction Hpos as [|x xs Hx _ IH];
      [reflexivity|]. cbn [map existsb]. rewrite IH.
    destruct (Z.ltb_spec x 0); [lia | reflexivity]. }
  assert (H2 : existsb (existsb fis_zero) (map (fun c => [of_Z c]) counts)
               = false).
  { clear -Hpos. induction Hpos as [|x xs Hx _ IH]; [reflexivity|].
    cbn [map existsb]. rewrite IH. unfold of_Z, fis_zero, Qis_zero.
    cbn [Qnum inject_Z]. destruct (Z.eqb_spec x 0); [lia | reflexivity]. }
  rewrite H1, H2.
  destruct (one_column_shape _ Hne) as [Hn Hl]. rewrite Hn, Hl.
  destruct counts as [|c cs]; [congruence|]. cbn [Datatypes.length].
  replace (Z.of_nat (S (Datatypes.length cs) * 1)
           - Z.of_nat (S (Datatypes.length cs) + 1) + 2 - 1) with 0 by lia.
  rewrite Nat.mul_1_r. reflexivity.
Qed.

Lemma map_nth_seq (l : list Z) :
  map (fun j => nth j l 0) (seq 0 (List.length l)) = l.
Proof.
  induction l as [|a l IH]; [reflexivity|].
  cbn [Datatypes.length seq map nth]. f_equal.
  rewrite <- seq_shift, map_map. exact IH.
Qed.

Lemma chi2_one_row (counts : list Z) :
  counts <> [] -> Forall (fun c => 0 < c) counts ->
  chi2_contingency [counts] = Ret (degenerate_result [map of_Z counts]).
Proof.
  intros Hne Hpos. pose proof (Zsum_pos _ Hne Hpos) as HT.
  assert (Hc : col_sums [counts] = counts).
  { unfold col_sums. cbn [ncols map].
    transitivity (map (fun j => nth j counts 0) (seq 0 (List.length counts)));
      [|apply map_nth_seq].
    apply map_ext. intros j. unfold Zsum. cbn [fold_right]. lia. }
  assert (Hg : grand_total [counts] = Zsum counts).
  { unfold grand_total, row_sums. cbn [map]. unfold Zsum at 1.
    cbn [fold_right]. lia. }
  assert (He : expected_freq [counts] = [map of_Z counts]).
  { unfold expected_freq. rewrite Hc, Hg. unfold row_sums. cbn [map].
    f_equal. apply map_ext. intros x.
    rewrite Z.mul_comm. apply fdiv_scaled. lia. }
  unfold chi2_contingency. rewrite He.
  cbn [existsb]. rewrite (no_negative_positive _ Hpos), (no_zero_positive _ Hpos).
  cbn [orb ncols Datatypes.length].
  destruct counts as [|c cs]; [congruence|]. cbn [Datatypes.length].
  replace (Z.of_nat (1 * S (Datatypes.length cs))
           - Z.of_nat (1 + S (Datatypes.length cs)) + 2 - 1) with 0 by lia.
  reflexivity.
Qed.

Lemma Qred_num_zero (q : Q) : Qnum q = 0 -> Qnum (Qred q) = 0.
Proof.
  intros H. pose proof (Qred_correct q) as E. unfold Qeq in E.
  rewrite H in E. cbn in E. lia.
Qed.

Lemma fdiv_zero_row (c T : Z) : T <> 0 -> fis_zero (fdiv (of_Z (0 * c)) (of_Z T)) = true.
Proof.
  intros HT. rewrite fdiv_of_Z. unfold ieee_quotient.
  destruct (Z.eqb_spec T 0) as [E|_]; [contradiction|].
  unfold fis_zero, Qis_zero. rewrite Qred_num_zero; reflexivity.
Qed.

Lemma chi2_zero_row (t : table) :
  existsb (existsb (fun x => x <? 0)) t = false ->
  In 0 (row_sums t) -> ncols t <> 0%nat -> grand_total t <> 0 ->
  chi2_contingency t = Raise ValueError.
Proof.
  intros Hneg Hrow Hcols HT. unfold chi2_contingency. rewrite Hneg.
  destruct (_ =? 0)%nat; [reflexivity|].
  assert (Hz : existsb (existsb fis_zero) (expected_freq t) = true).
  { apply existsb_exists.
    exists (map (fun cj => fdiv (of_Z (0 * cj)) (of_Z (grand_total t)))
                (col_sums t)).
    split.
    - unfold expected_freq.
      apply (in_map (fun ri => map (fun cj => fdiv (of_Z (ri * cj))
                                               (of_Z (grand_total t)))
                                   (col_sums t))) in Hrow.
      exact Hrow.
    - unfold col_sums. destruct (ncols t) as [|n]; [congruence|].
      cbn [seq map existsb]. now rewrite fdiv_zero_row. }
  now rewrite Hz.
Qed.

Lemma chi2_dof_tells (t : table) (r : chi2_result) :
  chi2_contingency t = Ret r ->
  (dof r = 0 /\ chi2 r = StatConst (of_Z 0) /\ p r = PConst (of_Z 1))
  \/ (dof r <> 0
      /\ chi2 r = PowerDivergence (dof r =? 1) t (expected r)
      /\ p r = Chi2Sf (chi2 r) (dof r)).
Proof.
  unfold chi2_contingency.
  destruct (existsb _ t); [discriminate|].
  destruct (_ =? 0)%nat; [discriminate|].
  destruct (existsb _ (expected_freq t)); [discriminate|].
  match goal with |- context [?d =? 0] => destruct (Z.eqb_spec d 0) as [E|E] end.
  - intros H. injection H as <-. cbn [dof chi2 p]. left. auto.
  - intros H. injection H as <-. cbn [dof chi2 p expected]. right. auto.
Qed.

(** C6, as the code has it: on a single column or a single row of
    positive counts SciPy returns chi2 = 0.0 and p = 1.0 with no degrees
    of freedom and nothing else; a returned result has no degrees of
    freedom exactly when it is this constant one, which tells it from a
    computed one.  A table with an all-zero row beside populated cells
    makes SciPy raise [ValueError]. *)
Theorem chi2_contingency_degenerate (counts : list Z) (t : table) :
  counts <> [] -> Forall (fun c => 0 < c) counts ->
  existsb (existsb (fun x => x <? 0)) t = false ->
  In 0 (row_sums t) -> ncols t <> 0%nat -> grand_total t <> 0 ->
  chi2_contingency (one_column counts)
  = Ret (degenerate_result (map (fun c => [of_Z c]) counts))
  /\ chi2_contingency [counts] = Ret (degenerate_result [map of_Z counts])
  /\ chi2_contingency t = Raise ValueError
  /\ (forall (t' : table) (r : chi2_result),
        chi2_contingency t' = Ret r ->
        (dof r = 0 /\ chi2 r = StatConst (of_Z 0) /\ p r = PConst (of_Z 1))
        \/ (dof r <> 0
            /\ chi2 r = PowerDivergence (dof r =? 1) t' (expected r)
            /\ p r = Chi2Sf (chi2 r) (dof r))).
Proof.
  intros Hne Hpos Hneg Hrow Hcols HT. repeat split.
  - now apply chi2_one_column.
  - now apply chi2_one_row.
  - now apply chi2_zero_row.
  - apply chi2_dof_tells.
Qed.

Lemma chi2_contingency_degenerate_witness :
  chi2_contingency (one_column [3; 4])
  = Ret (degenerate_result [[of_Z 3]; [of_Z 4]])
  /\ chi2_contingency one_populated_cell = Raise ValueError.
Proof.
  destruct (chi2_contingency_degenerate [3; 4] one_populated_cell)
    as [H1 [_ [H2 _]]].
  - discriminate.
  - repeat constructor.
  - reflexivity.
  - cbn. right. left. reflexivity.
  - cbn. discriminate.
  - cbn. discriminate.
  - split; [exact H1 | exact H2].
Defined.

(** C6, as stated, fails: with one populated cell among four nothing is
    returned, SciPy raises. *)
Lemma one_populated_cell_raises : ~ degenerate_signalled one_populated_cell.
Proof.
  intros [r [H _]]. vm_compute in H. discriminate H.
Qed.

(** ** The chi-square cell of the notebook *)

Lemma insert_uniq_sub {A : Type} (cmp : A -> A -> comparison) (a x : A)
  (l : list A) :
  In x (insert_uniq cmp a l) -> x = a \/ In x l.
Proof.
  induction l as [|y l IH]; cbn [insert_uniq In].
  - intuition.
  - destruct (cmp a y); cbn [In]; intuition.
Qed.

Lemma fold_insert_uniq_sub {A : Type} (cmp : A -> A -> comparison) (x : A)
  (l : list A) :
  In x (fold_right (insert_uniq cmp) [] l) -> In x l.
Proof.
  induction l as [|a l IH]; cbn [fold_right In]; [tauto|].
  intros H. apply insert_uniq_sub in H. intuition.
Qed.

Lemma insert_uniq_nonempty {A : Type} (cmp : A -> A -> comparison) (a : A)
  (l : list A) :
  insert_uniq cmp a l <> [].
Proof.
  destruct l as [|y l]; cbn [insert_uniq]; [discriminate|].
  destruct (cmp a y); discriminate.
Qed.

Lemma feqb_refl (x : float64) : feqb x x = true.
Proof.
  unfold feqb. destruct x as [q| | |]; cbn [fcompare]; try reflexivity.
  now rewrite (proj1 (Qeq_alt q q) (Qeq_refl q)).
Qed.

Lemma combine_repeat {A B : Type} (l : list A) (c : B) :
  combine l (repeat c (List.length l)) = map (fun x => (x, c)) l.
Proof.
  induction l as [|a l IH]; [reflexivity|].
  cbn [Datatypes.length repeat combine map]. now rewrite IH.
Qed.

Lemma sorted_keys_const {A : Type} (l : list A) (c : string) :
  l <> [] -> sorted_keys (map (fun _ => c) l) = [c].
Proof.
  induction l as [|a l IH]; [congruence|]. intros _.
  unfold sorted_keys in *. cbn [map fold_right]. destruct l as [|b l].
  - reflexivity.
  - rewrite IH by discriminate. cbn [insert_uniq].
    now rewrite string_compare_refl.
Qed.

Lemma In_length_pos {A : Type} (x : A) (l : list A) :
  In x l -> 0 < Z.of_nat (List.length l).
Proof.
  destruct l as [|y l]; [contradiction|]. intros _.
  cbn [Datatypes.length]. lia.
Qed.

Lemma crosstab_constant (index : list float64) (c : string) :
  index <> [] -> Forall (fun x => notna x = true) index ->
  exists counts : list Z,
    counts <> [] /\ Forall (fun n => 0 < n) counts
    /\ crosstab index [c] = Ret (one_column counts).
Proof.
  intros Hne Hna. unfold crosstab. cbn [broadcast].
  rewrite repeat_length, Nat.eqb_refl. cbn [negb].
  rewrite combine_repeat.
  assert (Hf : filter (fun p : float64 * string => notna (fst p))
                      (map (fun x => (x, c)) index)
               = map (fun x => (x, c)) index).
  { clear Hne. induction Hna as [|x xs Hx _ IH]; [reflexivity|].
    cbn [map filter fst]. now rewrite Hx, IH. }
  rewrite Hf, !map_map. cbn [fst snd]. rewrite map_id.
  rewrite sorted_keys_const by assumption.
  set (labels := fold_right (insert_uniq fcompare) [] index).
  set (count := fun i : float64 =>
         Z.of_nat (List.length
           (filter (fun p : float64 * string =>
                      feqb (fst p) i && String.eqb (snd p) c)
                   (map (fun x => (x, c)) index)))).
  exists (map count labels). split; [|split].
  - subst labels. destruct index as [|a l]; [congruence|].
    cbn [fold_right]. intros H. apply map_eq_nil in H.
    now apply insert_uniq_nonempty in H.
  - apply Forall_forall. intros n Hn. apply in_map_iff in Hn.
    destruct Hn as [i [<- Hi]]. subst labels count. cbn beta.
    apply fold_insert_uniq_sub in Hi.
    assert (Hin : In (i, c) (filter (fun p : float64 * string =>
                      feqb (fst p) i && String.eqb (snd p) c)
                   (map (fun x => (x, c)) index))).
    { apply filter_In. split.
      - apply in_map_iff. now exists i.
      - cbn [fst snd]. now rewrite feqb_refl, String.eqb_refl. }
    apply In_length_pos in Hin. exact Hin.
  - unfold one_column. rewrite map_map. reflexivity.
Qed.

Lemma party_pdf_sons (u : frame) :
  Forall (fun x => notna x = true) (map sons (party_pdf u)).
Proof.
  apply Forall_forall. intros x Hx. apply in_map_iff in Hx.
  destruct Hx as [row [<- Hrow]]. apply party_pdf_In in Hrow.
  destruct Hrow as [Hrow _]. unfold sex_ratio_table in Hrow.
  apply in_map_iff in Hrow. destruct Hrow as [k [<- _]].
  unfold group_ratio. cbn [sons]. now rewrite np_sum_column.
Qed.

(** C10, as the code has it: when at least one party passes the filter of
    the party table, crossing its sons column with the one-element list
    gives a table of one column of positive counts, and the test returns
    chi2 = 0.0 and p = 1.0 with no degrees of freedom, whatever the counts
    are; when no party passes the filter the table is empty and the test
    raises [ValueError]. *)
Theorem chi_square_cell_constant (u : frame) :
  match party_pdf u with
  | [] => chi_square_cell (party_pdf u) = Raise ValueError
  | _ :: _ =>
      exists counts : list Z,
        crosstab (map sons (party_pdf u)) ["numberOfDaughters"%string]
        = Ret (one_column counts)
        /\ chi_square_cell (party_pdf u)
           = Ret (degenerate_result (map (fun c => [of_Z c]) counts))
  end.
Proof.
  pose proof (party_pdf_sons u) as Hna.
  destruct (party_pdf u) as [|row rows] eqn:E; [reflexivity|].
  destruct (crosstab_constant (map sons (row :: rows)) "numberOfDaughters")
    as [counts [Hne [Hpos Hc]]]; [discriminate | assumption |].
  exists counts. split; [assumption|].
  unfold chi_square_cell. rewrite Hc. now apply chi2_one_column.
Qed.

(** C10, as stated, fails for a corpus in which no party has more than
    100 children: the test raises instead of returning 0.0 and 1.0. *)
Lemma chi_square_not_constant : ~ chi_square_constant one_family.
Proof.
  intros [e H]. vm_compute in H. discriminate H.
Qed.

(** ** Text counts *)

Lemma is_space_lower_char (c : ascii) :
  FieldNormalizer.is_space (FieldNormalizer.lower_char c)
  = FieldNormalizer.is_space c.
Proof.
  destruct c as [[] [] [] [] [] [] [] []]; reflexivity.
Qed.

Lemma no_space_lower (s : string) :
  no_space (FieldNormalizer.lower s) = no_space s.
Proof.
  induction s as [|c s IH]; [reflexivity|].
  cbn [FieldNormalizer.lower no_space]. now rewrite is_space_lower_char, IH.
Qed.

Lemma trim_no_space (s : string) :
  no_space s = true -> FieldNormalizer.trim s = s.
Proof.
  intros H. unfold FieldNormalizer.trim.
  assert (Hl : FieldNormalizer.lstrip s = s).
  { destruct s as [|c s]; [reflexivity|]. cbn [no_space] in H.
    apply andb_prop in H. destruct H as [Hc _]. cbn [FieldNormalizer.lstrip].
    now destruct (FieldNormalizer.is_space c). }
  rewrite Hl. induction s as [|c s IH]; [reflexivity|].
  cbn [no_space] in H. apply andb_prop in H. destruct H as [Hc Hs].
  cbn [FieldNormalizer.rstrip].
  assert (Hs' : FieldNormalizer.lstrip s = s).
  { destruct s as [|c' s]; [reflexivity|]. cbn [no_space] in Hs.
    apply andb_prop in Hs. destruct Hs as [Hc' _].
    cbn [FieldNormalizer.lstrip]. now destruct (FieldNormalizer.is_space c'). }
  rewrite (IH Hs Hs'). destruct s; [|reflexivity].
  now destruct (FieldNormalizer.is_space c).
Qed.

Lemma normalize_lower (s w : string) :
  FieldNormalizer.lower s = w -> no_space w = true ->
  FieldNormalizer.normalize (FieldNormalizer.RawStr s)
  = match FieldNormalizer.word_value w FieldNormalizer.number_words 0 with
    | Some v => FieldNormalizer.Count (Some v)
    | None =>
        match FieldNormalizer.plain_digits w with
        | Some v => FieldNormalizer.Count (Some v)
        | None => FieldNormalizer.InvalidCount
        end
    end.
Proof.
  intros Hw Hn. unfold FieldNormalizer.normalize.
  rewrite trim_no_space, Hw; [reflexivity|].
  now rewrite <- no_space_lower, Hw.
Qed.

(** C9: a number word from zero to ten, in any letter case, normalizes to
    the count its digit string normalizes to; an absent value normalizes
    to no count, which is not the count 0 of the string "0". *)
Theorem normalize_word_as_digits (n : nat) (w d s : string) :
  (n <= 10)%nat ->
  nth_error FieldNormalizer.number_words n = Some w ->
  nth_error FieldNormalizer.digit_strings n = Some d ->
  FieldNormalizer.lower s = w ->
  FieldNormalizer.normalize (FieldNormalizer.RawStr s)
  = FieldNormalizer.Count (Some (Z.of_nat n))
  /\ FieldNormalizer.normalize (FieldNormalizer.RawStr d)
     = FieldNormalizer.Count (Some (Z.of_nat n))
  /\ FieldNormalizer.normalize FieldNormalizer.Absent
     = FieldNormalizer.Count None
  /\ FieldNormalizer.normalize (FieldNormalizer.RawStr "0")
     = FieldNormalizer.Count (Some 0)
  /\ FieldNormalizer.normalize FieldNormalizer.Absent
     <> FieldNormalizer.normalize (FieldNormalizer.RawStr "0").
Proof.
  intros Hn Hw Hd Hs.
  assert (H0 : FieldNormalizer.normalize (FieldNormalizer.RawStr "0")
               = FieldNormalizer.Count (Some 0)) by reflexivity.
  split; [|split; [|split; [reflexivity | split; [exact H0|]]]].
  - do 11 (destruct n as [|n];
           [injection Hw as <-; now rewrite (normalize_lower s _ Hs)|]).
    lia.
  - do 11 (destruct n as [|n]; [injection Hd as <-; reflexivity|]).
    lia.
  - rewrite H0. discriminate.
Qed.

Lemma normalize_word_as_digits_witness :
  FieldNormalizer.normalize (FieldNormalizer.RawStr "Two")
  = FieldNormalizer.normalize (FieldNormalizer.RawStr "2").
Proof.
  destruct (normalize_word_as_digits 2 "two" "2" "Two") as [H1 [H2 _]].
  - lia.
  - reflexivity.
  - reflexivity.
  - reflexivity.
  - now rewrite H1, H2.
Defined.

(** ** Loading the session files *)

Lemma string_length_append (a b : string) :
  String.length (a ++ b) = (String.length a + String.length b)%nat.
Proof.
  induction a as [|c a IH]; [reflexivity|].
  cbn [append String.length]. now rewrite IH.
Qed.

Lemma substring_prefix (a b : string) :
  substring 0 (String.length a) (a ++ b) = a.
Proof.
  induction a as [|c a IH].
  - cbn [append String.length]. now destruct b.
  - cbn [append String.length substring]. now rewrite IH.
Qed.

Lemma py_slice_session (n : string) :
  py_slice 3 5 ("ls_" ++ n ++ ".json") = n.
Proof.
  unfold py_slice. rewrite !string_length_append.
  change (String.length "ls_") with 3%nat.
  change (String.length ".json") with 5%nat.
  replace (3 + (String.length n + 5) - 5 - 3)%nat with (String.length n)
    by lia.
  cbn [append substring]. apply substring_prefix.
Qed.

(** The rows read from a file named [ls_<n>.json] all carry the session
    label [<n>], one row for each entry of the file, in the order of the
    file and with the counts of the entries. *)
Theorem load_file_session (n : string) (members : list entry) :
  Forall (fun r => ls r = n) (load_file ("ls_" ++ n ++ ".json") members)
  /\ map mpsno (load_file ("ls_" ++ n ++ ".json") members)
     = map e_mpsno members
  /\ map numberOfSons (load_file ("ls_" ++ n ++ ".json") members)
     = map e_numberOfSons members
  /\ map numberOfDaughters (load_file ("ls_" ++ n ++ ".json") members)
     = map e_numberOfDaughters members.
Proof.
  unfold load_file. rewrite py_slice_session, !map_map. cbn [mpsno numberOfSons numberOfDaughters].
  repeat split. apply Forall_forall. intros r Hr.
  apply in_map_iff in Hr. destruct Hr as [e [<- _]]. reflexivity.
Qed.

(** A file name too short to hold the prefix and the extension gives the
    empty session label, not an error. *)
Theorem py_slice_short (s : string) :
  (String.length s <= 8)%nat -> py_slice 3 5 s = EmptyString.
Proof.
  intros H. unfold py_slice.
  replace (String.length s - 5 - 3)%nat with 0%nat by lia.
  generalize 3%nat. clear H. induction s as [|c s IH]; intros k.
  - now destruct k.
  - destruct k as [|k]; [reflexivity|]. cbn [substring]. apply IH.
Qed.

Lemma py_slice_short_witness : py_slice 3 5 "a.json" = EmptyString.
Proof.
  apply py_slice_short. cbn. lia.
Defined.

(** Every file listed adds its entries: the table has as many rows as the
    files have entries, and each row carries the label cut from the name
    of one of the files. *)
Theorem read_data_rows (files : list (string * list entry)) :
  files <> [] ->
  exists df : frame,
    read_data files = Ret df
    /\ List.length df
       = list_sum (map (fun f => List.length (snd f)) files)
    /\ Forall (fun r => exists f, In f files /\ ls r = py_slice 3 5 (fst f)) df.
Proof.
  intros Hne. destruct files as [|f0 files]; [congruence|].
  set (fs := f0 :: files). exists (List.concat (map (fun f => load_file (fst f) (snd f)) fs)).
  split; [reflexivity|]. clearbody fs. clear. split.
  - induction fs as [|f fs IH]; [reflexivity|].
    cbn [map List.concat list_sum]. rewrite length_app, IH.
    unfold load_file. now rewrite length_map.
  - apply Forall_forall. intros r Hr. apply in_concat in Hr.
    destruct Hr as [rows [Hrows Hr]]. apply in_map_iff in Hrows.
    destruct Hrows as [f [<- Hf]]. exists f. split; [assumption|].
    unfold load_file in Hr. apply in_map_iff in Hr.
    destruct Hr as [e [<- _]]. reflexivity.
Qed.

Lemma read_data_rows_witness :
  exists df : frame,
    read_data [("ls_17.json"%string, [mkEntry 1 "BJP" (Some 1) None])] = Ret df
    /\ List.length df = 1%nat.
Proof.
  destruct (read_data_rows [("ls_17.json"%string, [mkEntry 1 "BJP" (Some 1) None])])
    as [df [H1 [H2 _]]].
  - discriminate.
  - exists df. split; [exact H1 | exact H2].
Defined.

(** ** Rows kept and rows dropped *)

Lemma filter_split_length {A : Type} (f : A -> bool) (l : list A) :
  (List.length (filter f l) + List.length (filter (fun x => negb (f x)) l)
   = List.length l)%nat.
Proof.
  induction l as [|a l IH]; [reflexivity|].
  cbn [filter]. destruct (f a); cbn [negb Datatypes.length]; lia.
Qed.

Lemma filter_length_le_filter {A : Type} (f g : A -> bool) (l : list A) :
  (forall x, f x = true -> g x = true) ->
  (List.length (filter f l) <= List.length (filter g l))%nat.
Proof.
  intros H. induction l as [|a l IH]; [reflexivity|].
  cbn [filter]. destruct (f a) eqn:E.
  - rewrite (H a E). cbn [Datatypes.length]. lia.
  - destruct (g a); cbn [Datatypes.length]; lia.
Qed.

Lemma missing_count_filter (f : member -> option Z) (df : frame) :
  missing_count f df
  = List.length (filter (fun r => isna (of_cell (f r))) df).
Proof.
  unfold missing_count, column. induction df as [|r df IH]; [reflexivity|].
  cbn [map filter]. destruct (isna (of_cell (f r))); cbn [Datatypes.length];
    now rewrite IH.
Qed.

(** The filter on missing counts drops exactly the rows with neither
    count: the rows kept and the rows dropped add up to the table, the
    rows dropped are no more than the rows missing either count, every row
    kept has a count, and filtering again changes nothing. *)
Theorem df_small_rows (df : frame) :
  (List.length (df_small df) + List.length (filter both_missing df)
   = List.length df)%nat
  /\ (List.length (filter both_missing df) <= missing_count numberOfSons df)%nat
  /\ (List.length (filter both_missing df)
      <= missing_count numberOfDaughters df)%nat
  /\ Forall (fun r => numberOfSons r <> None \/ numberOfDaughters r <> None)
            (df_small df)
  /\ df_small (df_small df) = df_small df.
Proof.
  repeat split.
  - unfold df_small. pose proof (filter_split_length both_missing df). lia.
  - rewrite missing_count_filter. apply filter_length_le_filter.
    intros r H. unfold both_missing in H. now apply andb_prop in H.
  - rewrite missing_count_filter. apply filter_length_le_filter.
    intros r H. unfold both_missing in H. now apply andb_prop in H.
  - apply Forall_forall. intros r Hr. unfold df_small in Hr.
    apply filter_In in Hr. destruct Hr as [_ Hr]. unfold both_missing in Hr.
    destruct (numberOfSons r), (numberOfDaughters r); cbn in Hr;
      try discriminate Hr; try (left; discriminate); right; discriminate.
  - unfold df_small. induction df as [|r df IH]; [reflexivity|].
    cbn [filter]. destruct (negb (both_missing r)) eqn:E; [|exact IH].
    cbn [filter]. now rewrite E, IH.
Qed.

(** When the two counts are missing on the same rows, as the cell notes,
    the two printed counts of missing values agree and are the number of
    rows dropped. *)
Theorem df_small_same_rows (df : frame) :
  forallb same_rows df = true ->
  missing_count numberOfSons df = missing_count numberOfDaughters df
  /\ (List.length (df_small df) + missing_count numberOfSons df
      = List.length df)%nat.
Proof.
  intros H.
  assert (Hs : filter both_missing df
               = filter (fun r => isna (of_cell (numberOfSons r))) df).
  { induction df as [|r df IH]; [reflexivity|].
    cbn [forallb] in H. apply andb_prop in H. destruct H as [Hr H].
    cbn [filter]. rewrite (IH H). unfold both_missing.
    unfold same_rows in Hr. apply eqb_prop in Hr. rewrite <- Hr.
    now destruct (isna (of_cell (numberOfSons r))). }
  assert (Hd : filter both_missing df
               = filter (fun r => isna (of_cell (numberOfDaughters r))) df).
  { clear Hs. induction df as [|r df IH]; [reflexivity|].
    cbn [forallb] in H. apply andb_prop in H. destruct H as [Hr H].
    cbn [filter]. rewrite (IH H). unfold both_missing.
    unfold same_rows in Hr. apply eqb_prop in Hr. rewrite Hr.
    now destruct (isna (of_cell (numberOfDaughters r))). }
  rewrite !missing_count_filter, <- Hs, <- Hd. split; [reflexivity|].
  unfold df_small. pose proof (filter_split_length both_missing df). lia.
Qed.

Lemma df_small_same_rows_witness :
  (List.length (df_small (no_counts 3 "SP" "16" :: seen_twice))
   + missing_count numberOfSons (no_counts 3 "SP" "16" :: seen_twice)
   = 4)%nat.
Proof.
  exact (proj2 (df_small_same_rows (no_counts 3 "SP" "16" :: seen_twice)
                  eq_refl)).
Defined.

(** ** Counting members *)

Lemma unique_from_In (seen keys : list Z) (x : Z) :
  In x (unique_from seen keys) <-> In x keys /\ ~ In x seen.
Proof.
  revert seen. induction keys as [|k keys IH]; intros seen;
    cbn [unique_from In]; [tauto|].
  destruct (existsb (Z.eqb k) seen) eqn:E.
  - apply existsb_eqb_In in E. rewrite IH. split.
    + intuition.
    + intros [[->|H] Hn]; [contradiction | auto].
  - assert (Hk : ~ In k seen).
    { intros Hin. apply existsb_eqb_In in Hin. congruence. }
    cbn [In]. rewrite IH. cbn [In]. split.
    + intros [->|[H Hn]]; [auto|]. split; [auto|]. intuition.
    + intros [[->|H] Hn]; [auto|].
      destruct (Z.eq_dec k x) as [->|Hne]; [auto|]. right.
      split; [assumption|]. intros [?|?]; [contradiction | contradiction].
Qed.

Lemma unique_from_NoDup (seen keys : list Z) : NoDup (unique_from seen keys).
Proof.
  revert seen. induction keys as [|k keys IH]; intros seen;
    cbn [unique_from]; [constructor|].
  destruct (existsb (Z.eqb k) seen); [apply IH|].
  constructor; [|apply IH]. rewrite unique_from_In. cbn [In]. intuition.
Qed.

Lemma drop_duplicates_keys_In (d : frame) (k : Z) :
  In k (map mpsno (drop_duplicates d)) <-> In k (map mpsno d).
Proof.
  split; [apply drop_duplicates_keys_incl|]. intros Hin.
  pose proof (drop_duplicates_group d k) as Hg.
  destruct (Spec.last_with k d) as [r|] eqn:L.
  - assert (Hr : In r (filter (fun r => mpsno r =? k) (drop_duplicates d))).
    { rewrite Hg. now left. }
    apply filter_In in Hr. destruct Hr as [Hr Hk]. apply Z.eqb_eq in Hk.
    subst k. now apply in_map.
  - apply last_with_None in L. contradiction.
Qed.

Lemma drop_duplicates_keys_perm (d : frame) :
  Permutation (map mpsno (drop_duplicates d)) (unique (map mpsno d)).
Proof.
  apply NoDup_Permutation.
  - apply drop_duplicates_NoDup.
  - apply unique_from_NoDup.
  - intros k. rewrite drop_duplicates_keys_In. unfold unique.
    rewrite unique_from_In. cbn [In]. tauto.
Qed.

(** The table of unique members has one row for each distinct [mpsno]:
    its number of rows is the count of unique values the notebook prints
    just before, and its keys are those values, each once. *)
Theorem unique_df_rows (d : frame) :
  List.length (drop_duplicates d) = n_unique_mps d
  /\ Permutation (map mpsno (drop_duplicates d)) (unique (map mpsno d))
  /\ NoDup (map mpsno (drop_duplicates d)).
Proof.
  split; [|split].
  - unfold n_unique_mps.
    rewrite <- (Permutation_length (drop_duplicates_keys_perm d)).
    now rewrite length_map.
  - apply drop_duplicates_keys_perm.
  - apply drop_duplicates_NoDup.
Qed.

(** Reordering the rows, as another listing order of the files would,
    can change which row of a member is kept but not who is kept: the
    members of the unique table and their number stay the same. *)
Theorem unique_df_members_order_free (d d' : frame) :
  Permutation d d' ->
  Permutation (map mpsno (drop_duplicates d)) (map mpsno (drop_duplicates d'))
  /\ List.length (drop_duplicates d) = List.length (drop_duplicates d').
Proof.
  intros H.
  assert (Hp : Permutation (map mpsno (drop_duplicates d))
                           (map mpsno (drop_duplicates d'))).
  { apply NoDup_Permutation; try apply drop_duplicates_NoDup.
    intros k. rewrite !drop_duplicates_keys_In. split; intros Hin.
    - now apply (Permutation_in _ (Permutation_map mpsno H)).
    - now apply (Permutation_in _ (Permutation_sym (Permutation_map mpsno H))). }
  split; [assumption|].
  apply Permutation_length in Hp. now rewrite !length_map in Hp.
Qed.

Lemma unique_df_members_order_free_witness :
  List.length (drop_duplicates seen_twice)
  = List.length (drop_duplicates (rev seen_twice)).
Proof.
  exact (proj2 (unique_df_members_order_free seen_twice (rev seen_twice)
                  (Permutation_rev seen_twice))).
Defined.

(** ** The two sex-ratio cells *)

(** ** Total number of children *)

Lemma has_both_eq (r : member) :
  has_both r
  = match numberOfSons r, numberOfDaughters r with
    | Some _, Some _ => true
    | _, _ => false
    end.
Proof.
  unfold has_both. now destruct (numberOfSons r), (numberOfDaughters r).
Qed.






(** ** The range of the proportion of daughters *)

Lemma prop_mean_rows (g : frame) :
  Forall (fun r => Spec.has_children r = true) g ->
  series_mean (map prop_daughter g)
  = match Spec.mean (map Spec.share g) with Some q => Fin q | None => NaN end.
Proof.
  intros H. rewrite <- series_mean_fin, map_map. f_equal.
  apply map_ext_in. intros r Hr. apply prop_daughter_share.
  rewrite Forall_forall in H. now apply H.
Qed.

Lemma share_bounds (r : member) :
  Spec.has_children r = true -> counts_nonneg r = true ->
  (0 <= Spec.share r /\ Spec.share r <= 1)%Q.
Proof.
  unfold Spec.has_children, Spec.share, Spec.total_children, counts_nonneg.
  destruct (numberOfSons r) as [s|], (numberOfDaughters r) as [d|];
    try discriminate.
  cbn [Spec.count_of]. intros Ht Hn. apply Z.ltb_lt in Ht.
  apply andb_prop in Hn. destruct Hn as [Hs Hd].
  apply Z.leb_le in Hs, Hd.
  assert (Hpos : (0 < inject_Z (s + d))%Q).
  { change 0%Q with (inject_Z 0). now rewrite <- Zlt_Qlt. }
  split.
  - apply Qle_shift_div_l; [assumption|]. rewrite Qmult_0_l.
    change 0%Q with (inject_Z 0). now rewrite <- Zle_Qle.
  - apply Qle_shift_div_r; [assumption|]. rewrite Qmult_1_l.
    rewrite <- Zle_Qle. lia.
Qed.

Lemma Qsum_bounds (l : list Q) :
  Forall (fun q => 0 <= q /\ q <= 1)%Q l ->
  (0 <= Spec.Qsum l /\ Spec.Qsum l <= inject_Z (Z.of_nat (List.length l)))%Q.
Proof.
  induction 1 as [|q l [Hq0 Hq1] _ [IH0 IH1]].
  - cbn. split; apply Qle_refl.
  - unfold Spec.Qsum in *. cbn [fold_right Datatypes.length].
    rewrite Nat2Z.inj_succ, <- Z.add_1_l, inject_Z_plus. split.
    + exact (Qplus_le_compat _ _ _ _ Hq0 IH0).
    + rewrite (Qplus_comm (inject_Z 1)).
      rewrite (Qplus_comm q). exact (Qplus_le_compat _ _ _ _ IH1 Hq1).
Qed.

Lemma mean_bounds (l : list Q) :
  Forall (fun q => 0 <= q /\ q <= 1)%Q l ->
  match Spec.mean l with
  | Some q => (0 <= q /\ q <= 1)%Q
  | None => l = []
  end.
Proof.
  intros H. destruct l as [|x l]; [reflexivity|].
  set (m := x :: l) in *. assert (Hm : m <> []) by discriminate.
  change (Spec.mean m)
    with (Some (Qred (Spec.Qsum m / inject_Z (Z.of_nat (List.length m))))).
  destruct (Qsum_bounds m H) as [H0 H1].
  assert (Hpos : (0 < inject_Z (Z.of_nat (List.length m)))%Q).
  { change 0%Q with (inject_Z 0). rewrite <- Zlt_Qlt. subst m.
    cbn [Datatypes.length]. lia. }
  rewrite Qred_correct. split.
  - apply Qle_shift_div_l; [assumption|]. now rewrite Qmult_0_l.
  - apply Qle_shift_div_r; [assumption|]. now rewrite Qmult_1_l.
Qed.

Lemma prop_daughter_mean_eq (u : frame) :
  prop_daughter_mean u
  = match Spec.mean (map Spec.share (filter Spec.has_children u)) with
    | Some q => Fin q
    | None => NaN
    end.
Proof.
  unfold prop_daughter_mean. rewrite df_kids_spec. apply prop_mean_rows.
  apply Forall_forall. intros r Hr. now apply filter_In in Hr.
Qed.

(** When no count of the table is negative, the mean proportion of
    daughters is a number between 0 and 1, or NaN when no row of the
    table has children; it is never an infinity. *)
Theorem prop_daughter_mean_range (u : frame) :
  forallb counts_nonneg u = true ->
  match prop_daughter_mean u with
  | Fin q => (0 <= q /\ q <= 1)%Q
  | NaN => df_kids u = []
  | PInf | NInf => False
  end.
Proof.
  intros H. rewrite prop_daughter_mean_eq, df_kids_spec.
  assert (Hb : Forall (fun q => 0 <= q /\ q <= 1)%Q
                      (map Spec.share (filter Spec.has_children u))).
  { apply Forall_forall. intros q Hq. apply in_map_iff in Hq.
    destruct Hq as [r [<- Hr]]. apply filter_In in Hr. destruct Hr as [Hr Hc].
    apply share_bounds; [assumption|].
    rewrite forallb_forall in H. now apply H. }
  apply mean_bounds in Hb.
  destruct (Spec.mean _); [assumption|]. now apply map_eq_nil in Hb.
Qed.

Lemma prop_daughter_mean_range_witness :
  match prop_daughter_mean seen_twice with
  | Fin q => (0 <= q /\ q <= 1)%Q
  | NaN => df_kids seen_twice = []
  | PInf | NInf => False
  end.
Proof.
  exact (prop_daughter_mean_range seen_twice eq_refl).
Defined.

(** The mean proportion of daughters by session lists the sessions that
    have a row with children, in increasing order of label, and every
    mean listed is a finite number: the cell never shows NaN. *)
Theorem prop_daughter_by_ls_finite (u : frame) :
  map fst (prop_daughter_by_ls u) = sorted_keys (map ls (df_kids u))
  /\ Forall (fun e => exists q : Q, snd e = Fin q) (prop_daughter_by_ls u).
Proof.
  unfold prop_daughter_by_ls, mean_table. split.
  - rewrite map_map. cbn [fst]. apply map_id.
  - apply Forall_forall. intros e He. apply in_map_iff in He.
    destruct He as [k [<- Hk]]. cbn [snd].
    apply sorted_keys_In, in_map_iff in Hk. destruct Hk as [r [Hls Hr]].
    assert (Hg : Forall (fun r => Spec.has_children r = true)
                        (group_rows ls k (df_kids u))).
    { apply Forall_forall. intros x Hx. unfold group_rows in Hx.
      apply filter_In in Hx. destruct Hx as [Hx _].
      rewrite df_kids_spec in Hx. now apply filter_In in Hx. }
    rewrite (prop_mean_rows _ Hg).
    assert (Hin : In r (group_rows ls k (df_kids u))).
    { unfold group_rows. apply filter_In. split; [assumption|].
      rewrite Hls. apply String.eqb_refl. }
    destruct (group_rows ls k (df_kids u)) as [|x g]; [contradiction|].
    cbn [map Spec.mean]. eexists. reflexivity.
Qed.

(** ** The shape of a group-by table *)

Section InsertUniqSorted.

Context {A : Type} (cmp : A -> A -> comparison).
Hypothesis cmp_refl : forall a, cmp a a = Eq.
Hypothesis cmp_antisym : forall a b, cmp a b = CompOpp (cmp b a).
Hypothesis cmp_trans : forall a b c, cmp a b = Lt -> cmp b c = Lt -> cmp a c = Lt.

Lemma insert_uniq_sorted (a : A) (l : list A) :
  StronglySorted (fun a b => cmp a b = Lt) l -> StronglySorted (fun a b => cmp a b = Lt) (insert_uniq cmp a l).
Proof.
  induction 1 as [|x l Hl IH Hx]; cbn [insert_uniq].
  - constructor; constructor.
  - destruct (cmp a x) eqn:E.
    + now constructor.
    + constructor; [now constructor|]. constructor; [exact E|].
      rewrite Forall_forall in *. intros y Hy.
      apply cmp_trans with x; [exact E | now apply Hx].
    + constructor; [assumption|]. rewrite Forall_forall in *.
      intros y Hy. apply insert_uniq_sub in Hy. destruct Hy as [->|Hy].
      * rewrite cmp_antisym, E. reflexivity.
      * now apply Hx.
Qed.

Lemma fold_insert_uniq_sorted (l : list A) :
  StronglySorted (fun a b => cmp a b = Lt) (fold_right (insert_uniq cmp) [] l).
Proof.
  induction l as [|a l IH]; cbn [fold_right]; [constructor|].
  now apply insert_uniq_sorted.
Qed.

Lemma sorted_lt_NoDup (l : list A) : StronglySorted (fun a b => cmp a b = Lt) l -> NoDup l.
Proof.
  induction 1 as [|x l Hl IH Hx]; constructor; [|assumption].
  intros Hin. rewrite Forall_forall in Hx. specialize (Hx x Hin).
  cbn beta in Hx. rewrite cmp_refl in Hx. discriminate.
Qed.

End InsertUniqSorted.

Lemma sorted_keys_sorted (keys : list string) :
  StronglySorted (fun a b => String.compare a b = Lt) (sorted_keys keys).
Proof.
  apply fold_insert_uniq_sorted.
  - exact String.compare_antisym.
  - exact string_compare_trans.
Qed.

Lemma sorted_keys_NoDup (keys : list string) : NoDup (sorted_keys keys).
Proof.
  apply (sorted_lt_NoDup String.compare string_compare_refl).
  apply sorted_keys_sorted.
Qed.

(** A group-by table has its groups in strictly increasing order of
    label, each label once, and a row only for a label that some row of
    the input carries: no group is empty. *)
Theorem sex_ratio_table_groups (key : member -> string) (d : frame) :
  StronglySorted (fun a b => String.compare a b = Lt)
                 (map label (sex_ratio_table key d))
  /\ NoDup (map label (sex_ratio_table key d))
  /\ Forall (fun row => exists r : member, In r d /\ key r = label row)
            (sex_ratio_table key d).
Proof.
  rewrite sex_ratio_table_labels. split; [|split].
  - apply sorted_keys_sorted.
  - apply sorted_keys_NoDup.
  - apply Forall_forall. intros row Hrow. unfold sex_ratio_table in Hrow.
    apply in_map_iff in Hrow. destruct Hrow as [k [<- Hk]].
    apply sorted_keys_In, in_map_iff in Hk. destruct Hk as [r [Hr Hin]].
    exists r. split; [assumption|]. exact Hr.
Qed.

(** ** Group sums add up *)


Lemma Zsum_map_add {A : Type} (f g : A -> Z) (l : list A) :
  Zsum (map (fun a => f a + g a) l) = Zsum (map f l) + Zsum (map g l).
Proof.
  unfold Zsum. induction l as [|a l IH]; [reflexivity|].
  cbn [map fold_right]. lia.
Qed.




(** ** Grouping the full table *)

Lemma present_sum_df_small (f : member -> option Z) (g : member -> bool)
  (df : frame) :
  f = numberOfSons \/ f = numberOfDaughters ->
  present_sum f (filter g (df_small df)) = present_sum f (filter g df).
Proof.
  intros Hf. unfold df_small, present_sum, Zsum.
  induction df as [|r df IH]; [reflexivity|].
  cbn [filter]. unfold both_missing at 1.
  destruct (numberOfSons r) as [s|] eqn:Es,
           (numberOfDaughters r) as [dd|] eqn:Ed;
    cbn [of_cell of_Z isna andb negb filter];
    destruct (g r); cbn [map fold_right]; rewrite ?IH; try reflexivity.
  destruct Hf as [-> | ->]; rewrite ?Es, ?Ed; reflexivity.
Qed.

Lemma group_ratio_df_small (key : member -> string) (df : frame) (k : string) :
  group_ratio key (df_small df) k = group_ratio key df k.
Proof.
  unfold group_ratio, group_rows. rewrite !np_sum_column.
  rewrite !present_sum_df_small by auto. reflexivity.
Qed.

(** Grouping the full table of numeric columns, as the cell of sex
    ratios by session does, gives each group the sums and the ratio it has in the table without
    the rows missing both counts.  The full table can only show more
    groups: those whose rows all miss both counts, with sums of zero and a
    NaN ratio. *)
Theorem sex_ratio_table_full (key : member -> string) (df : frame) :
  (forall k : string,
     group_ratio key (df_small df) k = group_ratio key df k)
  /\ incl (sex_ratio_table key (df_small df)) (sex_ratio_table key df)
  /\ Forall (fun row =>
               In row (sex_ratio_table key (df_small df))
               \/ (sons row = of_Z 0 /\ daughters row = of_Z 0
                   /\ sex_ratio row = NaN))
            (sex_ratio_table key df).
Proof.
  split; [intros k; apply group_ratio_df_small | split].
  - intros row Hrow. unfold sex_ratio_table in *.
    apply in_map_iff in Hrow. destruct Hrow as [k [<- Hk]].
    rewrite group_ratio_df_small. apply in_map.
    apply (proj1 (sorted_keys_In _ _)) in Hk. apply sorted_keys_In.
    apply in_map_iff in Hk. destruct Hk as [r [Hr Hin]].
    apply in_map_iff. exists r. split; [assumption|].
    unfold df_small in Hin. now apply filter_In in Hin.
  - apply Forall_forall. intros row Hrow. unfold sex_ratio_table in *.
    apply in_map_iff in Hrow. destruct Hrow as [k [<- Hk]].
    destruct (in_dec string_dec k (map key (df_small df))) as [Hin|Hout].
    + left. rewrite <- group_ratio_df_small. apply in_map.
      now apply sorted_keys_In.
    + right. rewrite <- group_ratio_df_small.
      assert (Hg : group_rows key k (df_small df) = []).
      { unfold group_rows.
        destruct (filter _ (df_small df)) as [|r g] eqn:E; [reflexivity|].
        exfalso. apply Hout.
        assert (Hr : In r (filter (fun r => String.eqb (key r) k) (df_small df))).
        { rewrite E. now left. }
        apply filter_In in Hr. destruct Hr as [Hr Hk'].
        apply String.eqb_eq in Hk'. subst k. now apply in_map. }
      unfold group_ratio. rewrite Hg. repeat split.
Qed.

(** ** The order of the party table *)

Lemma Qle_bool_total (a b : Q) : Qle_bool b a = false -> Qle_bool a b = true.
Proof.
  intros H. apply Qle_bool_iff. apply Qlt_le_weak, Qnot_le_lt.
  intros Hle. apply Qle_bool_iff in Hle. congruence.
Qed.

Lemma before_desc_total (x y : float64) :
  before_desc x y = false -> before_desc y x = true.
Proof.
  destruct x as [a| | |], y as [b| | |]; cbn [before_desc];
    try discriminate; try reflexivity.
  apply Qle_bool_total.
Qed.

Lemma before_desc_trans (x y z : float64) :
  before_desc x y = true -> before_desc y z = true -> before_desc x z = true.
Proof.
  destruct x as [a| | |], y as [b| | |], z as [c| | |]; cbn [before_desc];
    try discriminate; try reflexivity.
  rewrite !Qle_bool_iff. intros H1 H2. now apply Qle_trans with b.
Qed.

Lemma insert_desc_sorted (r : ratio_row) (l : list ratio_row) :
  StronglySorted ratio_ge l -> StronglySorted ratio_ge (insert_desc r l).
Proof.
  induction 1 as [|x l Hl IH Hx]; cbn [insert_desc].
  - constructor; constructor.
  - destruct (before_desc (sex_ratio r) (sex_ratio x)) eqn:E.
    + constructor; [now constructor|]. constructor; [exact E|].
      rewrite Forall_forall in *. intros y Hy. unfold ratio_ge.
      apply before_desc_trans with (sex_ratio x); [exact E | now apply Hx].
    + constructor; [assumption|]. rewrite Forall_forall in *.
      intros y Hy.
      apply (Permutation_in _ (insert_desc_perm r l)) in Hy.
      destruct Hy as [<-|Hy]; [now apply before_desc_total | now apply Hx].
Qed.

Lemma sort_values_desc_sorted (t : list ratio_row) :
  StronglySorted ratio_ge (sort_values_desc t).
Proof.
  induction t as [|r t IH]; cbn [sort_values_desc fold_right]; [constructor|].
  now apply insert_desc_sorted.
Qed.

Lemma sorted_app_inv {A : Type} (R : A -> A -> Prop) (l1 l2 : list A) :
  StronglySorted R (l1 ++ l2) ->
  StronglySorted R l1
  /\ forall x y, In x l1 -> In y l2 -> R x y.
Proof.
  induction l1 as [|a l1 IH]; cbn [app]; intros H.
  - split; [constructor | contradiction].
  - apply StronglySorted_inv in H. destruct H as [Hs Ha].
    destruct (IH Hs) as [H1 H2]. split.
    + constructor; [assumption|]. apply Forall_forall. intros y Hy.
      rewrite Forall_forall in Ha. apply Ha. apply in_or_app. now left.
    + intros x y [<-|Hx] Hy.
      * rewrite Forall_forall in Ha. apply Ha. apply in_or_app. now right.
      * now apply H2.
Qed.

(** ** Degrees of freedom *)

(** Whenever the chi-square test returns, the table has at least one row
    and one column, the degrees of freedom are (rows - 1) * (columns - 1),
    they are zero exactly for a single row or a single column, and the
    expected table returned is the one of the marginal sums. *)
Theorem chi2_contingency_dof (t : table) (r : chi2_result) :
  chi2_contingency t = Ret r ->
  t <> [] /\ ncols t <> 0%nat
  /\ dof r = (Z.of_nat (List.length t) - 1) * (Z.of_nat (ncols t) - 1)
  /\ (dof r = 0 <-> List.length t = 1%nat \/ ncols t = 1%nat)
  /\ expected r = expected_freq t.
Proof.
  unfold chi2_contingency.
  destruct (existsb _ t); [discriminate|].
  destruct (Nat.eqb_spec (List.length t * ncols t) 0) as [E|E];
    [discriminate|].
  destruct (existsb _ (expected_freq t)); [discriminate|].
  assert (Hn : List.length t <> 0%nat /\ ncols t <> 0%nat) by nia.
  destruct Hn as [Hn Hm].
  assert (Hd : Z.of_nat (List.length t * ncols t)
               - Z.of_nat (List.length t + ncols t) + 2 - 1
               = (Z.of_nat (List.length t) - 1) * (Z.of_nat (ncols t) - 1))
    by nia.
  rewrite Hd.
  assert (Hz : (Z.of_nat (List.length t) - 1) * (Z.of_nat (ncols t) - 1) = 0
               <-> List.length t = 1%nat \/ ncols t = 1%nat) by nia.
  assert (Ht : t <> []) by (intros ->; now apply Hn).
  destruct (_ =? 0); intros H; injection H as <-; cbn [dof expected];
    repeat split; try assumption; apply Hz.
Qed.

Lemma chi2_contingency_dof_witness :
  dof (degenerate_result [[of_Z 3]; [of_Z 4]]) = 0.
Proof.
  destruct (chi2_contingency_dof (one_column [3; 4])
              (degenerate_result [[of_Z 3]; [of_Z 4]]))
    as [_ [_ [_ [H _]]]].
  - reflexivity.
  - apply H. now right.
Defined.

(** ** What the contingency table counts *)

Lemma fcompare_of_Z (a b : Z) : fcompare (of_Z a) (of_Z b) = Z.compare a b.
Proof.
  unfold fcompare, of_Z, Qcompare. cbn [Qnum Qden inject_Z].
  now rewrite !Z.mul_1_r.
Qed.

Lemma feqb_of_Z (a b : Z) : feqb (of_Z a) (of_Z b) = (a =? b).
Proof.
  unfold feqb. rewrite fcompare_of_Z.
  destruct (Z.eqb_spec a b) as [->|Hne].
  - now rewrite Z.compare_refl.
  - destruct (a ?= b) eqn:E; try reflexivity.
    apply Z.compare_eq in E. contradiction.
Qed.

Lemma insert_uniq_map {A B : Type} (cmpA : A -> A -> comparison)
  (cmpB : B -> B -> comparison) (f : A -> B) (a : A) (l : list A) :
  (forall x y, cmpB (f x) (f y) = cmpA x y) ->
  insert_uniq cmpB (f a) (map f l) = map f (insert_uniq cmpA a l).
Proof.
  intros H. induction l as [|x l IH]; [reflexivity|].
  cbn [map insert_uniq]. rewrite H.
  destruct (cmpA a x); cbn [map]; [reflexivity | reflexivity | now rewrite IH].
Qed.

Lemma fold_insert_uniq_map {A B : Type} (cmpA : A -> A -> comparison)
  (cmpB : B -> B -> comparison) (f : A -> B) (l : list A) :
  (forall x y, cmpB (f x) (f y) = cmpA x y) ->
  fold_right (insert_uniq cmpB) [] (map f l)
  = map f (fold_right (insert_uniq cmpA) [] l).
Proof.
  intros H. induction l as [|a l IH]; [reflexivity|].
  cbn [map fold_right]. rewrite IH. now apply insert_uniq_map.
Qed.

Lemma Z_compare_trans (a b c : Z) :
  (a ?= b) = Lt -> (b ?= c) = Lt -> (a ?= c) = Lt.
Proof.
  rewrite !Z.compare_lt_iff. lia.
Qed.

Lemma count_partition (zs ks : list Z) :
  NoDup ks -> (forall z, In z zs -> In z ks) ->
  Zsum (map (fun k => Z.of_nat (List.length (filter (fun z => z =? k) zs))) ks)
  = Z.of_nat (List.length zs).
Proof.
  intros Hnd. induction zs as [|z zs IH]; intros Hin.
  - unfold Zsum. cbn [filter Datatypes.length]. clear.
    induction ks as [|k ks IH]; [reflexivity|]. cbn [map fold_right].
    now rewrite IH.
  - transitivity
      (Zsum (map (fun k => (if z =? k then 1 else 0)
                           + Z.of_nat (List.length
                                         (filter (fun z => z =? k) zs))) ks)).
    + f_equal. apply map_ext. intros k. cbn [filter].
      destruct (z =? k); cbn [Datatypes.length]; lia.
    + rewrite Zsum_map_add, IH by (intros x Hx; apply Hin; now right).
      assert (H1 : Zsum (map (fun k => if z =? k then 1 else 0) ks) = 1).
      { assert (Hz : In z ks) by (apply Hin; now left).
        clear IH Hin. unfold Zsum.
        induction Hnd as [|k ks Hk Hnd IHk]; [contradiction|].
        cbn [map fold_right]. destruct Hz as [->|Hz].
        - rewrite Z.eqb_refl.
          assert (H0 : fold_right Z.add 0
                         (map (fun k => if z =? k then 1 else 0) ks) = 0).
          { clear IHk Hnd. induction ks as [|y ks IHy]; [reflexivity|].
            cbn [map fold_right]. destruct (Z.eqb_spec z y) as [->|_].
            - exfalso. apply Hk. now left.
            - rewrite IHy; [reflexivity|]. intros H. apply Hk. now right. }
          lia.
        - destruct (Z.eqb_spec z k) as [->|_]; [contradiction|].
          now rewrite IHk. }
      cbn [Datatypes.length]. lia.
Qed.




(** ** Fetching the Rajya Sabha biodata *)

Lemma append_inj_l (a x y : string) : (a ++ x = a ++ y)%string -> x = y.
Proof.
  induction a as [|c a IH]; cbn [append]; [trivial|].
  intros H. injection H as H. now apply IH.
Qed.

Lemma append_inj_r (x y s : string) : (x ++ s = y ++ s)%string -> x = y.
Proof.
  revert y. induction x as [|c x IH]; intros [|c' y] H; cbn [append] in H.
  - reflexivity.
  - apply (f_equal String.length) in H. cbn [String.length] in H.
    rewrite string_length_append in H. lia.
  - apply (f_equal String.length) in H. cbn [String.length] in H.
    rewrite string_length_append in H. lia.
  - injection H as -> H. f_equal. now apply IH.
Qed.

Lemma str_inj (a b : nat) : GetRsData.str a = GetRsData.str b -> a = b.
Proof.
  unfold GetRsData.str. intros H. apply Unsigned.to_uint_inj.
  apply (f_equal NilEmpty.uint_of_string) in H.
  rewrite !NilEmpty.usu in H. now injection H.
Qed.

Lemma file_path_inj (a b : nat) :
  GetRsData.file_path a = GetRsData.file_path b -> a = b.
Proof.
  unfold GetRsData.file_path. intros H.
  apply append_inj_l, append_inj_r in H. now apply str_inj.
Qed.

Lemma find_filter_other (p p' : string) (fs : list (string * string)) :
  p <> p' ->
  find (fun f => String.eqb (fst f) p)
       (filter (fun f => negb (String.eqb (fst f) p')) fs)
  = find (fun f => String.eqb (fst f) p) fs.
Proof.
  intros Hne. induction fs as [|[q s] fs IH]; [reflexivity|].
  cbn [filter find fst]. destruct (String.eqb_spec q p') as [->|Hq];
    cbn [negb find fst].
  - destruct (String.eqb_spec p' p) as [->|_]; [congruence | exact IH].
  - now rewrite IH.
Qed.

Lemma read_write (p p' s : string) (fs : list (string * string)) :
  GetRsData.read p (GetRsData.write p' s fs)
  = if String.eqb p' p then Some s else GetRsData.read p fs.
Proof.
  unfold GetRsData.read, GetRsData.write. cbn [find fst].
  destruct (String.eqb_spec p' p) as [->|Hne]; [reflexivity|].
  rewrite find_filter_other by congruence. reflexivity.
Qed.

Lemma body_eq (w : GetRsData.world) (c : nat) (d : GetRsData.disk) :
  GetRsData.body w c d
  = match GetRsData.interrupts w c with
    | Some e => (d, Some e)
    | None =>
        (GetRsData.mkDisk
           (match GetRsData.saved w c with
            | Some s => GetRsData.write (GetRsData.file_path c) s
                                        (GetRsData.files d)
            | None => GetRsData.files d
            end)
           (if GetRsData.refused w c
            then (GetRsData.printed d
                  ++ [("Request failed for MP Code: " ++ GetRsData.str c)%string])
            else GetRsData.printed d),
         None)
    end.
Proof.
  unfold GetRsData.body, GetRsData.interrupts, GetRsData.saved,
    GetRsData.refused.
  destruct (GetRsData.requests_get w _) as [r|]; [|reflexivity].
  destruct (GetRsData.status_code r =? 200); cbn [negb].
  - destruct (GetRsData.json_loads w _); reflexivity.
  - reflexivity.
Qed.

Lemma for_each_spec (w : GetRsData.world) (codes : list nat)
  (d : GetRsData.disk) :
  snd (GetRsData.for_each w codes d) = GetRsData.first_interrupt w codes
  /\ GetRsData.printed (fst (GetRsData.for_each w codes d))
     = GetRsData.printed d
       ++ map (fun c => ("Request failed for MP Code: " ++ GetRsData.str c)%string)
              (filter (GetRsData.refused w) (GetRsData.handled w codes))
  /\ forall c : nat,
       GetRsData.read (GetRsData.file_path c)
                      (GetRsData.files (fst (GetRsData.for_each w codes d)))
       = if existsb (Nat.eqb c) (GetRsData.handled w codes)
         then match GetRsData.saved w c with
              | Some s => Some s
              | None => GetRsData.read (GetRsData.file_path c)
                                       (GetRsData.files d)
              end
         else GetRsData.read (GetRsData.file_path c) (GetRsData.files d).
Proof.
  revert d. induction codes as [|c0 codes IH]; intros d.
  - cbn. rewrite app_nil_r. repeat split.
  - cbn [GetRsData.for_each GetRsData.first_interrupt GetRsData.handled].
    rewrite body_eq. destruct (GetRsData.interrupts w c0) as [e|].
    + cbn. rewrite app_nil_r. repeat split.
    + match goal with |- context [GetRsData.for_each w codes ?d1] =>
        destruct (IH d1) as [H1 [H2 H3]] end.
      split; [exact H1 | split].
      * rewrite H2. cbn [GetRsData.printed filter].
        destruct (GetRsData.refused w c0); cbn [map];
          [now rewrite <- app_assoc | reflexivity].
      * intros c. rewrite H3. cbn [GetRsData.files existsb].
        destruct (Nat.eqb_spec c c0) as [->|Hne]; cbn [orb].
        -- destruct (GetRsData.saved w c0) as [s|] eqn:Es.
           ++ rewrite read_write, String.eqb_refl.
              now destruct (existsb _ _).
           ++ now destruct (existsb _ _).
        -- assert (Hr : GetRsData.read (GetRsData.file_path c)
                          (match GetRsData.saved w c0 with
                           | Some s => GetRsData.write (GetRsData.file_path c0)
                                         s (GetRsData.files d)
                           | None => GetRsData.files d
                           end)
                        = GetRsData.read (GetRsData.file_path c)
                                         (GetRsData.files d)).
           { destruct (GetRsData.saved w c0); [|reflexivity].
             rewrite read_write.
             destruct (String.eqb_spec (GetRsData.file_path c0)
                                       (GetRsData.file_path c)) as [E|_];
               [|reflexivity].
             apply file_path_inj in E. congruence. }
           now rewrite Hr.
Qed.

Lemma handled_seq (w : GetRsData.world) (a n : nat) :
  exists k : nat,
    (k <= n)%nat
    /\ GetRsData.handled w (seq a n) = seq a k
    /\ (GetRsData.first_interrupt w (seq a n) = None <-> k = n)
    /\ (k < n -> GetRsData.first_interrupt w (seq a n)
                 = GetRsData.interrupts w (a + k))%nat.
Proof.
  revert a. induction n as [|n IH]; intros a.
  - exists 0%nat. cbn. repeat split; lia.
  - cbn [seq GetRsData.handled GetRsData.first_interrupt].
    destruct (GetRsData.interrupts w a) as [e|] eqn:E.
    + exists 0%nat. rewrite Nat.add_0_r, E. cbn [seq].
      repeat split; try lia; discriminate.
    + destruct (IH (S a)) as [k [Hk [Hh [Hf Hi]]]].
      exists (S k). cbn [seq]. rewrite Hh. repeat split; try lia.
      * intros H. apply Hf in H. lia.
      * intros H. apply Hf. lia.
      * intros Hlt. rewrite Hi by lia. f_equal. lia.
Qed.

Lemma existsb_seq (c a k : nat) :
  existsb (Nat.eqb c) (seq a k) = ((a <=? c) && (c <? a + k))%nat.
Proof.
  destruct (existsb (Nat.eqb c) (seq a k)) eqn:E.
  - apply existsb_exists in E. destruct E as [x [Hx Hc]].
    apply Nat.eqb_eq in Hc. subst x. apply in_seq in Hx.
    symmetry. apply andb_true_intro. split;
      [apply Nat.leb_le | apply Nat.ltb_lt]; lia.
  - symmetry. apply not_true_is_false. intros H. apply andb_prop in H.
    destruct H as [H1 H2]. apply Nat.leb_le in H1. apply Nat.ltb_lt in H2.
    assert (Hin : In c (seq a k)) by (apply in_seq; lia).
    assert (Ht : existsb (Nat.eqb c) (seq a k) = true).
    { apply existsb_exists. exists c. split; [assumption|].
      apply Nat.eqb_refl. }
    congruence.
Qed.

(** The download asks for the codes 1, 2, ... in turn, up to 2573, and
    stops at the first request or body that raises, keeping what it has
    written.  For the [k] codes handled before that: a code answered with
    status 200 has its file [mp_data/<code>.json] holding the dumped
    body, whatever was there before; any other code is printed as failed
    and its file is left as it was.  The files of the codes not reached
    are untouched, and the run ends without exception exactly when all
    2573 codes are handled. *)
Theorem get_rs_data_saves (w : GetRsData.world) (d : GetRsData.disk) :
  exists k : nat,
    (k <= 2573)%nat
    /\ (snd (GetRsData.get_rs_data w d) = None <-> k = 2573%nat)
    /\ (k < 2573 -> snd (GetRsData.get_rs_data w d)
                    = GetRsData.interrupts w (S k))%nat
    /\ (forall c : nat,
          GetRsData.read (GetRsData.file_path c)
            (GetRsData.files (fst (GetRsData.get_rs_data w d)))
          = if ((1 <=? c) && (c <=? k))%nat
            then match GetRsData.saved w c with
                 | Some s => Some s
                 | None => GetRsData.read (GetRsData.file_path c)
                                          (GetRsData.files d)
                 end
            else GetRsData.read (GetRsData.file_path c) (GetRsData.files d))
    /\ GetRsData.printed (fst (GetRsData.get_rs_data w d))
       = GetRsData.printed d
         ++ map (fun c => ("Request failed for MP Code: "
                           ++ GetRsData.str c)%string)
                (filter (GetRsData.refused w) (seq 1 k)).
Proof.
  unfold GetRsData.get_rs_data.
  destruct (handled_seq w 1 2573) as [k [Hk [Hh [Hf Hi]]]].
  destruct (for_each_spec w (seq 1 2573) d) as [H1 [H2 H3]].
  exists k. split; [exact Hk | split; [|split; [|split]]].
  - rewrite H1. exact Hf.
  - intros Hlt. rewrite H1. exact (Hi Hlt).
  - intros c. rewrite H3, Hh, existsb_seq.
    replace (c <? 1 + k)%nat with (c <=? k)%nat; [reflexivity|].
    destruct (Nat.leb_spec c k), (Nat.ltb_spec c (1 + k)); lia || reflexivity.
  - rewrite H2, Hh. reflexivity.
Qed.

(** Two different codes never share a file, so no record of the download
    overwrites another. *)
Theorem file_path_distinct (a b : nat) :
  a <> b -> GetRsData.file_path a <> GetRsData.file_path b.
Proof.
  intros Hne H. apply Hne. now apply file_path_inj.
Qed.

Lemma file_path_distinct_witness :
  GetRsData.file_path 1 <> GetRsData.file_path 10.
Proof.
  apply file_path_distinct. discriminate.
Defined.

(** ** Proportion of daughters by number of children *)

Lemma df_kids_total (u : frame) (r : member) :
  In r (df_kids u) -> total_kids r = of_Z (kids_of r) /\ 0 < kids_of r.
Proof.
  rewrite df_kids_spec. intros H. apply filter_In in H. destruct H as [_ H].
  rewrite total_kids_spec. unfold kids_of, Spec.has_children in *.
  destruct (Spec.total_children r) as [t|]; [|discriminate].
  cbn [Spec.count_of]. split; [reflexivity | now apply Z.ltb_lt].
Qed.

Lemma filter_notna_of_Z (zs : list Z) :
  filter notna (map of_Z zs) = map of_Z zs.
Proof.
  induction zs as [|z zs IH]; [reflexivity|].
  cbn [map filter]. change (notna (of_Z z)) with true. now rewrite IH.
Qed.

Lemma kids_table_keys (u : frame) :
  fold_right (insert_uniq fcompare) []
             (filter notna (map total_kids (df_kids u)))
  = map of_Z (fold_right (insert_uniq Z.compare) []
                         (map kids_of (df_kids u))).
Proof.
  rewrite (map_ext_in total_kids (fun r => of_Z (kids_of r)))
    by (intros r Hr; exact (proj1 (df_kids_total u r Hr))).
  rewrite <- (map_map kids_of of_Z), filter_notna_of_Z.
  apply fold_insert_uniq_map. exact fcompare_of_Z.
Qed.

Lemma kids_group_of_Z (u : frame) (k : Z) :
  kids_group u (of_Z k) = filter (fun r => kids_of r =? k) (df_kids u).
Proof.
  unfold kids_group. apply filter_ext_in. intros r Hr.
  destruct (df_kids_total u r Hr) as [-> _]. apply feqb_of_Z.
Qed.

Lemma kids_group_count (u : frame) (k : float64) :
  List.length (filter notna (map prop_daughter (kids_group u k)))
  = List.length (kids_group u k).
Proof.
  rewrite (map_ext_in prop_daughter (fun r => fin (Spec.share r))).
  - rewrite <- (map_map Spec.share fin), filter_notna_fin.
    now rewrite !length_map.
  - intros r Hr. unfold kids_group in Hr. apply filter_In in Hr.
    destruct Hr as [Hr _]. rewrite df_kids_spec in Hr.
    apply filter_In in Hr. now apply prop_daughter_share.
Qed.

Lemma length_filter_map {A : Type} (f : A -> Z) (k : Z) (l : list A) :
  List.length (filter (fun z => z =? k) (map f l))
  = List.length (filter (fun a => f a =? k) l).
Proof.
  induction l as [|a l IH]; [reflexivity|].
  cbn [map filter]. destruct (f a =? k); cbn [Datatypes.length];
    now rewrite IH.
Qed.

Lemma Zsum_of_nat (l : list nat) : Zsum (map Z.of_nat l) = Z.of_nat (list_sum l).
Proof.
  unfold Zsum. induction l as [|n l IH]; [reflexivity|].
  change (list_sum (n :: l)) with (n + list_sum l)%nat.
  cbn [map fold_right]. lia.
Qed.

(** The table of the proportion of daughters by number of children has
    a row for each number of children found among the members with
    children, in increasing order; every number listed is positive, every
    count is positive and every mean is a finite number; and the counts
    add up to the number of members with children. *)
Theorem kids_table_counts (u : frame) :
  list_sum (map count (kids_table u)) = List.length (df_kids u)
  /\ StronglySorted (fun a b => fcompare a b = Lt) (map kids (kids_table u))
  /\ Forall (fun row => fgt0 (kids row) = true
                        /\ (0 < count row)%nat
                        /\ exists q : Q, mean_prop row = Fin q)
            (kids_table u).
Proof.
  set (ks := fold_right (insert_uniq Z.compare) [] (map kids_of (df_kids u))).
  assert (Hin : forall z, In z ks <-> In z (map kids_of (df_kids u))).
  { intros z. apply fold_insert_uniq_In. intros a b. apply Z.compare_eq. }
  assert (Hsorted : StronglySorted (fun a b => (a ?= b) = Lt) ks).
  { apply fold_insert_uniq_sorted.
    - intros a b. apply Z.compare_antisym.
    - exact Z_compare_trans. }
  assert (Ht : kids_table u
               = map (fun k => mkKidsRow (of_Z k)
                       (series_mean (map prop_daughter (kids_group u (of_Z k))))
                       (List.length (kids_group u (of_Z k)))) ks).
  { unfold kids_table. rewrite kids_table_keys, map_map. apply map_ext.
    intros k. cbn zeta. now rewrite kids_group_count. }
  rewrite Ht. split; [|split].
  - rewrite map_map. cbn [count]. apply Nat2Z.inj.
    rewrite <- Zsum_of_nat, map_map.
    rewrite (map_ext _ (fun k => Z.of_nat (List.length
               (filter (fun z => z =? k) (map kids_of (df_kids u)))))).
    + rewrite count_partition; [now rewrite length_map| |].
      * apply (sorted_lt_NoDup Z.compare Z.compare_refl). exact Hsorted.
      * intros z Hz. now apply Hin.
    + intros k. now rewrite kids_group_of_Z, length_filter_map.
  - rewrite map_map. cbn [kids]. clear -Hsorted.
    induction Hsorted as [|k ks Hs IH Hk]; [constructor|].
    cbn [map]. constructor; [assumption|].
    rewrite Forall_forall in *. intros x Hx. apply in_map_iff in Hx.
    destruct Hx as [z [<- Hz]]. rewrite fcompare_of_Z. now apply Hk.
  - apply Forall_forall. intros row Hrow. apply in_map_iff in Hrow.
    destruct Hrow as [k [<- Hk]]. cbn [kids count mean_prop].
    apply Hin, in_map_iff in Hk. destruct Hk as [r [Hkr Hr]].
    destruct (df_kids_total u r Hr) as [_ Hpos]. rewrite Hkr in Hpos.
    assert (Hg : In r (kids_group u (of_Z k))).
    { rewrite kids_group_of_Z. apply filter_In. split; [assumption|].
      now apply Z.eqb_eq. }
    split; [|split].
    + unfold fgt0, of_Z, Qsign_pos. cbn [Qnum inject_Z]. now apply Z.ltb_lt.
    + destruct (kids_group u (of_Z k)); [contradiction|].
      cbn [Datatypes.length]. lia.
    + assert (Hc : Forall (fun r => Spec.has_children r = true)
                          (kids_group u (of_Z k))).
      { apply Forall_forall. intros x Hx. unfold kids_group in Hx.
        apply filter_In in Hx. destruct Hx as [Hx _].
        rewrite df_kids_spec in Hx. now apply filter_In in Hx. }
      rewrite (prop_mean_rows _ Hc).
      destruct (kids_group u (of_Z k)) as [|x g]; [contradiction|].
      cbn [map Spec.mean]. eexists. reflexivity.
Qed.

(** ** Mean number of children *)

Lemma filter_notna_total_kids (u : frame) :
  filter notna (map total_kids u) = map total_kids (filter has_both u).
Proof.
  induction u as [|r u IH]; [reflexivity|].
  cbn [map filter]. rewrite IH, has_both_eq.
  pose proof (total_kids_spec r) as Ht. unfold Spec.total_children in Ht.
  destruct (numberOfSons r), (numberOfDaughters r); rewrite Ht;
    cbn [map]; rewrite ?Ht; reflexivity.
Qed.

(** The mean number of children is the total number of children over the
    number of rows with both counts present, not over all the rows; it is
    NaN when no row has both counts. *)
Theorem total_kids_mean_both (u : frame) :
  total_kids_mean u
  = match filter has_both u with
    | [] => NaN
    | g => fdiv (total_kids_sum u) (of_Z (Z.of_nat (List.length g)))
    end.
Proof.
  unfold total_kids_mean, series_mean, total_kids_sum, np_sum.
  rewrite filter_notna_total_kids.
  destruct (filter has_both u) as [|r g]; [reflexivity|].
  rewrite length_map. reflexivity.
Qed.

(** ** The sex ratio on typed columns *)

Lemma calculate_ratio_at_numeric (dt : dtypes) (data : frame) :
  numeric dt = true ->
  calculate_ratio_at dt data = Ret (calculate_ratio data).
Proof.
  intros H. unfold calculate_ratio_at.
  destruct dt as [[|] [|]]; try discriminate H; reflexivity.
Qed.

Lemma agg_sex_ratio_at_numeric (dt : dtypes) (data : frame) :
  numeric dt = true -> agg_sex_ratio_at dt data = agg_sex_ratio data.
Proof.
  intros H. unfold agg_sex_ratio_at.
  destruct dt as [[|] [|]]; try discriminate H; reflexivity.
Qed.

Lemma calculate_ratio_at_object (data : frame) :
  calculate_ratio_at (Object, Object) data
  = if present_sum numberOfDaughters data =? 0
    then Raise ZeroDivisionError
    else Ret (ieee_quotient (present_sum numberOfSons data)
                            (present_sum numberOfDaughters data)).
Proof.
  unfold calculate_ratio_at. cbn [both_object].
  rewrite !np_sum_column, py_div_of_Z, fdiv_of_Z. reflexivity.
Qed.

(** C1, as the code has it.  On numeric count columns whose sums are
    exact, [calculate_ratio] divides the sum of the sons column by the sum
    of the daughters column, each summed over the rows where that column
    is present; a zero sum of daughters gives an untagged infinity or NaN
    and nothing is raised.  The cell under "Agg. Sex Ratio" sums with the
    builtin [sum], so a missing value makes its sum NaN, and a zero sum of
    daughters raises [ZeroDivisionError].  On two object columns
    [calculate_ratio] raises [ZeroDivisionError] as well. *)
Theorem calculate_ratio_at_quotient (dt : dtypes) (data : frame) :
  numeric dt = true -> exact_sums data = true ->
  calculate_ratio_at dt data
  = Ret (ieee_quotient (present_sum numberOfSons data)
                       (present_sum numberOfDaughters data))
  /\ agg_sex_ratio_at dt data
     = (if all_present numberOfDaughters data then
          if present_sum numberOfDaughters data =? 0
          then Raise ZeroDivisionError
          else if all_present numberOfSons data
               then Ret (ieee_quotient (present_sum numberOfSons data)
                                       (present_sum numberOfDaughters data))
               else Ret NaN
        else Ret NaN)
  /\ calculate_ratio_at (Object, Object) data
     = (if present_sum numberOfDaughters data =? 0
        then Raise ZeroDivisionError
        else Ret (ieee_quotient (present_sum numberOfSons data)
                                (present_sum numberOfDaughters data))).
Proof.
  intros Hn _. split; [|split].
  - rewrite (calculate_ratio_at_numeric _ _ Hn). f_equal.
    apply calculate_ratio_eq.
  - rewrite (agg_sex_ratio_at_numeric _ _ Hn). apply agg_sex_ratio_eq.
  - apply calculate_ratio_at_object.
Qed.

Lemma calculate_ratio_at_quotient_witness :
  calculate_ratio_at (Numeric, Numeric) zero_daughters = Ret PInf
  /\ agg_sex_ratio_at (Numeric, Numeric) zero_daughters
     = Raise ZeroDivisionError.
Proof.
  destruct (calculate_ratio_at_quotient (Numeric, Numeric) zero_daughters
              eq_refl eq_refl) as [H1 [H2 _]].
  split; [exact H1 | exact H2].
Defined.

(** On numeric count columns whose sums are exact, the cell under
    "Agg. Sex Ratio" and [calculate_ratio] never disagree on a number:
    when the cell returns a value that is not NaN, [calculate_ratio]
    returns the same value; when it raises, it raises
    [ZeroDivisionError], the sum of daughters is zero and
    [calculate_ratio] returns an infinity or NaN. *)
Theorem agg_sex_ratio_at_agrees (dt : dtypes) (d : frame) :
  numeric dt = true -> exact_sums d = true ->
  match agg_sex_ratio_at dt d with
  | Ret x => isna x = true \/ calculate_ratio_at dt d = Ret x
  | Raise e =>
      e = ZeroDivisionError
      /\ present_sum numberOfDaughters d = 0
      /\ exists y : float64,
           calculate_ratio_at dt d = Ret y /\ Spec.returned y = None
  end.
Proof.
  intros Hn _. rewrite (agg_sex_ratio_at_numeric _ _ Hn).
  rewrite (calculate_ratio_at_numeric _ _ Hn).
  rewrite agg_sex_ratio_eq, calculate_ratio_eq.
  destruct (all_present numberOfDaughters d); [|now left].
  destruct (Z.eqb_spec (present_sum numberOfDaughters d) 0) as [E|E].
  - repeat split; [assumption|]. eexists. split; [reflexivity|].
    rewrite E. unfold ieee_quotient. cbn [Z.eqb].
    destruct (0 <? _); [reflexivity|]. destruct (_ <? 0); reflexivity.
  - destruct (all_present numberOfSons d); [now right | now left].
Qed.

Lemma agg_sex_ratio_at_agrees_witness :
  isna (of_Z 1) = true
  \/ calculate_ratio_at (Numeric, Numeric) one_family = Ret (of_Z 1).
Proof.
  exact (agg_sex_ratio_at_agrees (Numeric, Numeric) one_family
           eq_refl eq_refl).
Defined.

(** ** The ten rows of the party table *)

(** C8, as the code has it: on numeric count columns with exact sums the
    cell of the party table raises nothing.  The group table [adf] has one
    row for each party of the input.  Of its rows, those whose sons and
    daughters add up to more than 100 pass the filter; [pdf] holds ten of
    them, or all of them when they are fewer, in decreasing order of sex
    ratio (NaN last), and no row that passes the filter and is left out
    ranks above a row kept.  The rows at or below 100 are removed, not
    marked. *)
Theorem party_pdf_top_ten (dt : dtypes) (u : frame) :
  numeric dt = true -> exact_sums u = true ->
  party_pdf_at dt u = Ret (party_pdf u)
  /\ (forall party : string,
        In party (map label (sex_ratio_table partySname u))
        <-> In party (map partySname u))
  /\ List.length (party_pdf u)
     = Nat.min 10 (List.length
                     (filter enough_data (sex_ratio_table partySname u)))
  /\ StronglySorted ratio_ge (party_pdf u)
  /\ (forall row : ratio_row,
        In row (party_pdf u) ->
        In row (sex_ratio_table partySname u)
        /\ fgt (fadd (daughters row) (sons row)) 100 = true)
  /\ exists rest : list ratio_row,
       Permutation (party_pdf u ++ rest)
                   (filter enough_data (sex_ratio_table partySname u))
       /\ (forall kept row : ratio_row,
             In kept (party_pdf u) -> In row rest -> ratio_ge kept row)
       /\ ((List.length (filter enough_data (sex_ratio_table partySname u))
            <= 10)%nat -> rest = []).
Proof.
  intros Hn _. split.
  { unfold party_pdf_at, sex_ratio_table_at. destruct dt as [[|] [|]];
      try discriminate Hn. reflexivity. }
  split.
  { intros party. rewrite sex_ratio_table_labels. apply sorted_keys_In. }
  unfold party_pdf.
  set (t := filter enough_data (sex_ratio_table partySname u)).
  pose proof (sort_values_desc_sorted t) as Hs.
  pose proof (Permutation_length (sort_values_desc_perm t)) as Hl.
  rewrite <- (firstn_skipn 10 (sort_values_desc t)) in Hs.
  apply sorted_app_inv in Hs. destruct Hs as [H1 H2].
  split; [|split; [assumption|split]].
  - now rewrite length_firstn, Hl.
  - intros row Hin. apply firstn_In in Hin.
    apply (Permutation_in _ (sort_values_desc_perm t)) in Hin.
    unfold t in Hin. apply filter_In in Hin. exact Hin.
  - exists (skipn 10 (sort_values_desc t)). split; [|split].
    + rewrite firstn_skipn. apply sort_values_desc_perm.
    + exact H2.
    + intros Hle. apply skipn_all2. lia.
Qed.

Lemma party_pdf_top_ten_witness :
  party_pdf_at (Numeric, Numeric) seen_twice = Ret (party_pdf seen_twice).
Proof.
  exact (proj1 (party_pdf_top_ten (Numeric, Numeric) seen_twice
                  eq_refl eq_refl)).
Defined.

(** ** A row with no counts and the group tables *)

Lemma sorted_keys_insert (key : member -> string) (pre post : frame)
  (r : member) :
  sorted_keys (map key (pre ++ r :: post))
  = insert_uniq String.compare (key r) (sorted_keys (map key (pre ++ post))).
Proof.
  rewrite (sorted_keys_perm (map key (pre ++ r :: post))
                            (map key (r :: pre ++ post))).
  - reflexivity.
  - apply Permutation_map, Permutation_sym, Permutation_middle.
Qed.

Lemma sex_ratio_table_insert (key : member -> string) (pre post : frame)
  (k : Z) (party session : string) :
  sex_ratio_table key (pre ++ no_counts k party session :: post)
  = map (group_ratio key (pre ++ post))
        (insert_uniq String.compare (key (no_counts k party session))
                     (sorted_keys (map key (pre ++ post)))).
Proof.
  unfold sex_ratio_table. rewrite sorted_keys_insert.
  apply map_ext. intros g. apply group_ratio_drop.
Qed.

Lemma group_ratio_absent (key : member -> string) (d : frame) (g : string) :
  ~ In g (map key d) -> group_ratio key d g = mkRow g (of_Z 0) (of_Z 0) NaN.
Proof.
  intros Hout. unfold group_ratio.
  assert (Hg : group_rows key g d = []).
  { unfold group_rows. destruct (filter _ d) as [|r rows] eqn:E; [reflexivity|].
    exfalso. apply Hout.
    assert (Hr : In r (filter (fun r => String.eqb (key r) g) d)).
    { rewrite E. now left. }
    apply filter_In in Hr. destruct Hr as [Hr Hk].
    apply String.eqb_eq in Hk. subst g. now apply in_map. }
  rewrite Hg. reflexivity.
Qed.

(** C7, as the code has it: a row with neither count is left out of
    [df_small], so the aggregate sex ratio, [unique_df], [calculate_ratio]
    and the proportion of daughters are those made without it, and it
    stays in the corpus, counted in its length and in the two counts of
    missing values.  A group table made from the unfiltered corpus, as the
    table of sex ratios by session is, keeps the sums of every group but
    has a group for the label of the row: when no other row carries that
    label the table gains a row of zero sums with a NaN ratio, and on
    object columns the division raises [ZeroDivisionError]. *)
Theorem no_counts_row_effect (key : member -> string) (pre post : frame)
  (k : Z) (party session : string) :
  let r := no_counts k party session in
  df_small (pre ++ r :: post) = df_small (pre ++ post)
  /\ unique_df (pre ++ r :: post) = unique_df (pre ++ post)
  /\ List.length (pre ++ r :: post) = S (List.length (pre ++ post))
  /\ missing_count numberOfSons (pre ++ r :: post)
     = S (missing_count numberOfSons (pre ++ post))
  /\ missing_count numberOfDaughters (pre ++ r :: post)
     = S (missing_count numberOfDaughters (pre ++ post))
  /\ sex_ratio_table key (pre ++ r :: post)
     = map (group_ratio key (pre ++ post))
           (insert_uniq String.compare (key r)
                        (sorted_keys (map key (pre ++ post))))
  /\ (In (key r) (map key (pre ++ post)) ->
      forall dt : dtypes,
        sex_ratio_table_at dt key (pre ++ r :: post)
        = sex_ratio_table_at dt key (pre ++ post))
  /\ (~ In (key r) (map key (pre ++ post)) ->
      In (mkRow (key r) (of_Z 0) (of_Z 0) NaN)
         (sex_ratio_table key (pre ++ r :: post))
      /\ sex_ratio_table_at (Object, Object) key (pre ++ r :: post)
         = Raise ZeroDivisionError).
Proof.
  intros r. subst r.
  assert (Hin : forall g, In g (sorted_keys (map key (pre ++ post)))
                          <-> In g (map key (pre ++ post)))
    by (intros g; apply sorted_keys_In).
  split; [apply df_small_drop|].
  split; [unfold unique_df; now rewrite df_small_drop|].
  split; [rewrite !length_app; cbn [Datatypes.length]; lia|].
  split; [now apply missing_count_add|].
  split; [now apply missing_count_add|].
  split; [apply sex_ratio_table_insert|]. split.
  - intros Hk dt. unfold sex_ratio_table_at.
    assert (Ht : sex_ratio_table key (pre ++ no_counts k party session :: post)
                 = sex_ratio_table key (pre ++ post)).
    { rewrite sex_ratio_table_insert. unfold sex_ratio_table. f_equal.
      apply Hin in Hk. pose proof (sorted_keys_sorted (map key (pre ++ post))) as Hs.
      revert Hk Hs. generalize (sorted_keys (map key (pre ++ post))).
      generalize (key (no_counts k party session)). clear.
      intros x l Hk Hs. induction Hs as [|y l Hs IH Hy]; [contradiction|].
      cbn [insert_uniq]. destruct Hk as [->|Hk].
      - now rewrite string_compare_refl.
      - rewrite Forall_forall in Hy. specialize (Hy x Hk).
        rewrite String.compare_antisym, Hy. cbn [CompOpp].
        now rewrite (IH Hk). }
    now rewrite Ht.
  - intros Hout.
    assert (Hrow : In (mkRow (key (no_counts k party session))
                             (of_Z 0) (of_Z 0) NaN)
                      (sex_ratio_table key
                         (pre ++ no_counts k party session :: post))).
    { rewrite sex_ratio_table_insert.
      rewrite <- (group_ratio_absent key (pre ++ post) _ Hout).
      apply in_map. apply insert_uniq_In; [exact String.compare_eq_iff|].
      now left. }
    split; [exact Hrow|]. unfold sex_ratio_table_at. cbn [both_object andb].
    assert (He : existsb (fun row => fis_zero (daughters row))
                   (sex_ratio_table key
                      (pre ++ no_counts k party session :: post)) = true).
    { apply existsb_exists. eexists. split; [exact Hrow | reflexivity]. }
    now rewrite He.
Qed.

(** C7, as stated, fails for the table of sex ratios by session: a
    session whose only row has no counts changes it, by a row of NaN on
    numeric columns and by [ZeroDivisionError] on object columns. *)
Lemma by_session_row_not_excluded :
  ~ by_session_unchanged (Object, Object) (Numeric, Numeric)
      lone_session (tl lone_session)
  /\ ~ by_session_unchanged (Numeric, Numeric) (Numeric, Numeric)
        lone_session (tl lone_session).
Proof.
  split; unfold by_session_unchanged; vm_compute; discriminate.
Qed.

(** On numeric columns, grouping the full table, as the cell of sex
    ratios by session does, gives each group the sums and the ratio it has
    in the table without the rows missing both counts.  The full table can
    only show more groups: those whose rows all miss both counts, with
    sums of zero and a NaN ratio. *)
Theorem sex_ratio_table_full_at (dt : dtypes) (key : member -> string)
  (df : frame) :
  numeric dt = true -> exact_sums df = true ->
  sex_ratio_table_at dt key df = Ret (sex_ratio_table key df)
  /\ sex_ratio_table_at dt key (df_small df)
     = Ret (sex_ratio_table key (df_small df))
  /\ (forall g : string,
        group_ratio key (df_small df) g = group_ratio key df g)
  /\ incl (sex_ratio_table key (df_small df)) (sex_ratio_table key df)
  /\ Forall (fun row =>
               In row (sex_ratio_table key (df_small df))
               \/ (sons row = of_Z 0 /\ daughters row = of_Z 0
                   /\ sex_ratio row = NaN))
            (sex_ratio_table key df).
Proof.
  intros Hn _.
  assert (Ht : forall d, sex_ratio_table_at dt key d
                         = Ret (sex_ratio_table key d)).
  { intros d. unfold sex_ratio_table_at.
    destruct dt as [[|] [|]]; try discriminate Hn; reflexivity. }
  split; [apply Ht | split; [apply Ht|]]. apply sex_ratio_table_full.
Qed.

Lemma sex_ratio_table_full_at_witness :
  sex_ratio_table_at (Numeric, Numeric) ls lone_session
  = Ret (sex_ratio_table ls lone_session).
Proof.
  exact (proj1 (sex_ratio_table_full_at (Numeric, Numeric) ls lone_session
                  eq_refl eq_refl)).
Defined.

(** ** Row order and the typed aggregates *)

Lemma calculate_ratio_at_perm (dt : dtypes) (d d' : frame) :
  Permutation d d' -> calculate_ratio_at dt d = calculate_ratio_at dt d'.
Proof.
  intros H. unfold calculate_ratio_at. rewrite !np_sum_column.
  rewrite (present_sum_perm numberOfSons _ _ H).
  rewrite (present_sum_perm numberOfDaughters _ _ H).
  now rewrite (calculate_ratio_perm _ _ H).
Qed.

Lemma agg_sex_ratio_at_perm (dt : dtypes) (d d' : frame) :
  Permutation d d' -> agg_sex_ratio_at dt d = agg_sex_ratio_at dt d'.
Proof.
  intros H. unfold agg_sex_ratio_at.
  rewrite (all_present_perm numberOfSons _ _ H).
  rewrite (all_present_perm numberOfDaughters _ _ H).
  now rewrite (agg_sex_ratio_perm _ _ H).
Qed.

(** C5, as the code has it.  While the sums are exact, the aggregates
    made of sums give the same result on a reordered table: the two sex
    ratios, the group tables of sums and ratios, the party table.  The
    means are taken over the same values, each as many times, in every
    group; the float mean of the same values in another order can differ
    in its last digits.  On a table with no row the cell under "Agg. Sex
    Ratio" raises [ZeroDivisionError]; [calculate_ratio] returns NaN on
    numeric columns and raises [ZeroDivisionError] on object columns; the
    group tables are empty and nothing is raised. *)
Theorem aggregates_at_order_independent (dt : dtypes)
  (key : member -> string) (d d' : frame) :
  Permutation d d' -> exact_sums d = true ->
  (calculate_ratio_at dt d = calculate_ratio_at dt d'
   /\ agg_sex_ratio_at dt d = agg_sex_ratio_at dt d'
   /\ sex_ratio_table_at dt key d = sex_ratio_table_at dt key d'
   /\ party_pdf d = party_pdf d'
   /\ Permutation (map prop_daughter (df_kids d))
                  (map prop_daughter (df_kids d'))
   /\ Permutation (map total_kids d) (map total_kids d')
   /\ sorted_keys (map key (df_kids d)) = sorted_keys (map key (df_kids d'))
   /\ forall g : string,
        Permutation (map prop_daughter (group_rows key g (df_kids d)))
                    (map prop_daughter (group_rows key g (df_kids d')))
        /\ Permutation (map total_kids (group_rows key g d))
                       (map total_kids (group_rows key g d')))
  /\ (agg_sex_ratio_at dt [] = Raise ZeroDivisionError
      /\ calculate_ratio_at (Object, Object) [] = Raise ZeroDivisionError
      /\ calculate_ratio_at (Numeric, Numeric) [] = Ret NaN
      /\ sex_ratio_table_at dt key [] = Ret []).
Proof.
  intros H _. split.
  - assert (Hk : Permutation (df_kids d) (df_kids d'))
      by now apply perm_filter.
    split; [now apply calculate_ratio_at_perm|].
    split; [now apply agg_sex_ratio_at_perm|].
    split; [unfold sex_ratio_table_at;
            now rewrite (sex_ratio_table_perm key _ _ H)|].
    split; [unfold party_pdf;
            now rewrite (sex_ratio_table_perm partySname _ _ H)|].
    split; [now apply Permutation_map|].
    split; [now apply Permutation_map|].
    split; [apply sorted_keys_perm; now apply Permutation_map|].
    intros g. split; apply Permutation_map; now apply perm_filter.
  - destruct dt as [[|] [|]]; repeat split.
Qed.

Lemma aggregates_at_order_independent_witness :
  calculate_ratio_at (Numeric, Numeric) seen_twice
  = calculate_ratio_at (Numeric, Numeric) (rev seen_twice)
  /\ sex_ratio_table_at (Numeric, Numeric) ls seen_twice
     = sex_ratio_table_at (Numeric, Numeric) ls (rev seen_twice).
Proof.
  destruct (aggregates_at_order_independent (Numeric, Numeric) ls
              seen_twice (rev seen_twice) (Permutation_rev seen_twice)
              eq_refl) as [[H1 [_ [H2 _]]] _].
  split; [exact H1 | exact H2].
Defined.

(** ** Bootstrap standard error *)

Lemma take_rows (d : frame) (locs : list nat) :
  Forall (fun i => (i < List.length d)%nat) locs ->
  exists rows : frame, take d locs = Ret rows /\ rows_at d locs rows.
Proof.
  induction 1 as [|i locs Hi _ IH].
  - exists []. split; [reflexivity | constructor].
  - destruct IH as [rows [Ht Hr]].
    destruct (nth_error d i) as [r|] eqn:E.
    + exists (r :: rows). cbn [take]. rewrite E, Ht.
      split; [reflexivity | now constructor].
    + apply nth_error_None in E. lia.
Qed.

Lemma rows_at_length (u : frame) (locs : list nat) (smp : frame) :
  rows_at u locs smp -> List.length smp = List.length locs.
Proof.
  induction 1; cbn [Datatypes.length]; congruence.
Qed.

Lemma bootstrap_loop_draws (g : generator) (dt : dtypes) (u : frame)
  (n : nat) :
  choice_in_range g -> numeric dt = true ->
  forall (ratios : list float64) (st : gen_state g),
  exists samples : list frame,
    Forall2 (rows_at u)
            (fst (draws g n (List.length u) (List.length u) st)) samples
    /\ bootstrap_loop dt n u (List.length u) ratios st
       = Ret (ratios ++ map calculate_ratio samples,
              snd (draws g n (List.length u) (List.length u) st)).
Proof.
  intros Hc Hn. induction n as [|n IH]; intros ratios st.
  - exists []. cbn [draws fst snd bootstrap_loop map]. rewrite app_nil_r.
    split; [constructor | reflexivity].
  - cbn [draws bootstrap_loop]. unfold bind at 1, sample.
    assert (Hr : (0 < List.length u \/ List.length u = 0)%nat) by lia.
    destruct (Hc (List.length u) (List.length u) st Hr) as [_ Hlt].
    destruct (choice g (List.length u) (List.length u) st) as [locs st1].
    cbn [fst] in Hlt.
    destruct (take_rows u locs Hlt) as [smp [Ht Hrows]]. rewrite Ht.
    unfold bind at 1, lift. rewrite (calculate_ratio_at_numeric _ _ Hn).
    destruct (IH (ratios ++ [calculate_ratio smp]) st1) as [samples [Hs Hl]].
    destruct (draws g n (List.length u) (List.length u) st1) as [rest st2].
    cbn [fst snd] in *. exists (smp :: samples). split.
    + now constructor.
    + rewrite Hl, <- app_assoc. reflexivity.
Qed.

Lemma bootstrap_cell_seeded (g : generator) (dt : dtypes) (u : frame)
  (st : gen_state g) :
  bootstrap_cell dt u st
  = match bootstrap_loop dt 1000 u (List.length u) [] (seed_state g 314) with
    | Ret (ratios, st') => Ret (np_std ratios, st')
    | Raise e => Raise e
    end.
Proof.
  unfold bootstrap_cell, bind, np_random_seed, ret.
  destruct (bootstrap_loop _ _ _ _ _ _) as [[ratios st']|e]; reflexivity.
Qed.

Lemma draws_length (g : generator) (n a size : nat) (st : gen_state g) :
  List.length (fst (draws g n a size st)) = n.
Proof.
  revert st. induction n as [|n IH]; intros st; [reflexivity|].
  cbn [draws]. destruct (choice g a size st) as [locs st1].
  specialize (IH st1). destruct (draws g n a size st1) as [rest st2].
  cbn [fst Datatypes.length] in *. now rewrite IH.
Qed.

(** C4, as the code has it: on a table with at least one row, numeric
    count columns and exact sums, the cell sets the generator from the
    seed 314, draws 1000 times as many positions as the table has rows,
    positions that may repeat, takes for each draw the rows at those
    positions, computes the ratio of each sample, and returns the standard
    deviation of the 1000 ratios: the square root of the mean of their
    squared deviations from their mean.  The result and the state left do not depend on the
    generator state the cell starts from, so two runs on the same table
    agree. *)
Theorem bootstrap_cell_resamples (g : generator) (dt : dtypes) (u : frame)
  (g1 g2 : gen_state g) :
  choice_in_range g -> u <> [] -> numeric dt = true ->
  exact_resamples u = true ->
  bootstrap_cell dt u g1 = bootstrap_cell dt u g2
  /\ exists samples : list frame,
       Forall2 (rows_at u)
         (fst (draws g 1000 (List.length u) (List.length u) (seed_state g 314)))
         samples
       /\ List.length samples = 1000%nat
       /\ Forall (fun smp => List.length smp = List.length u) samples
       /\ bootstrap_cell dt u g1
          = Ret (np_std (map calculate_ratio samples),
                 snd (draws g 1000 (List.length u) (List.length u)
                            (seed_state g 314))).
Proof.
  intros Hc Hne Hn _. split; [now rewrite !bootstrap_cell_seeded|].
  destruct (bootstrap_loop_draws g dt u 1000 Hc Hn [] (seed_state g 314))
    as [samples [Hs Hl]].
  exists samples.
  assert (Hlen : List.length samples = 1000%nat).
  { rewrite <- (Forall2_length Hs). apply draws_length. }
  split; [exact Hs | split; [exact Hlen | split]].
  - assert (Hr : (0 < List.length u \/ List.length u = 0)%nat) by lia.
    clear Hl Hlen. revert Hs.
    generalize (seed_state g 314). generalize 1000%nat.
    intros n st Hs. revert st samples Hs.
    induction n as [|n IH]; intros st samples Hs.
    + cbn [draws fst] in Hs. inversion Hs. constructor.
    + cbn [draws] in Hs.
      destruct (Hc (List.length u) (List.length u) st Hr) as [Hsize _].
      destruct (choice g (List.length u) (List.length u) st) as [locs st1].
      specialize (IH st1).
      destruct (draws g n (List.length u) (List.length u) st1) as [rest st2].
      cbn [fst] in *. inversion Hs as [|? smp ? samples' Hrow Hrest]; subst.
      constructor; [|now apply IH].
      rewrite (rows_at_length _ _ _ Hrow). exact Hsize.
  - rewrite bootstrap_cell_seeded, Hl. reflexivity.
Qed.

Lemma counter_generator_in_range : choice_in_range counter_generator.
Proof.
  intros a size st Hr. cbn [choice counter_generator fst]. split.
  - now rewrite length_map, length_seq.
  - apply Forall_forall. intros i Hi. apply in_map_iff in Hi.
    destruct Hi as [k [<- Hk]]. apply in_seq in Hk.
    apply Nat.mod_upper_bound. lia.
Qed.

Lemma bootstrap_cell_resamples_witness :
  bootstrap_cell (g := counter_generator) (Numeric, Numeric) seen_twice 0%nat
  = bootstrap_cell (g := counter_generator) (Numeric, Numeric) seen_twice 5%nat.
Proof.
  refine (proj1 (bootstrap_cell_resamples counter_generator (Numeric, Numeric)
                   seen_twice 0%nat 5%nat counter_generator_in_range _
                   eq_refl eq_refl)).
  discriminate.
Defined.

(** C4, as stated, fails on object columns, where the first ratio of
    the loop is a Python quotient: with no daughters in the table, and so
    on a table with no row, the cell raises instead of returning a
    standard deviation. *)
Lemma bootstrap_cell_object_raises :
  bootstrap_cell (g := counter_generator) (Object, Object) [] 0%nat
  = Raise ZeroDivisionError
  /\ bootstrap_cell (g := counter_generator) (Object, Object)
                    zero_daughters 0%nat
     = Raise ZeroDivisionError.
Proof.
  split; vm_compute; reflexivity.
Qed.
